(** * The Yuan host: a multi-tenant WebSocket routing hub

    Shallow embedding of [apps/hosts/src/index.ts].

    The host keeps three process-wide maps keyed by public key
    ([mapPublicKeyToTerminalIdToSocket], [mapPublicKeyToSignature],
    [mapPublicKeyToTerminalInfos]) and reacts to events: HTTP upgrade
    requests, ['message'] and ['close'] events of accepted sockets, the
    services of the per-tenant host terminal, and the timers of the
    phantom-elimination pipeline.  Every handler of the source is a
    function from the state to a new state and the list of effects it
    performs on the outside world (calls on sockets, log lines).

    Modelling conventions.
    - A [Record<string, X>] is a [gmap string X]. A connection map
      [mapTerminalIdToSocket] is a plain object: a read of a name it does
      not own finds the member of [Object.prototype] of that name, if
      there is one ([get]), and a value used as a key is first converted
      to a property key ([property_key]). Public keys are taken not to be
      names of members of [Object.prototype].
    - A [Map] of metadata is a [gmap jskey ITerminalInfo]: the type
      annotation makes its keys strings, but a key is whatever value the
      request carried, and [Map] compares keys by SameValueZero without
      converting them.
    - The order of [Map.values()], [Map.keys()] and [Object.entries] is
      not represented: the lists of [snapshot] and [ListHost] have the
      entries of the source in an order of their own, and the theorems
      about them state which entries they hold.
    - The handler of [SIGINT] and [SIGTERM], which closes every client
      socket and exits, is outside this file: no event stands for a
      signal, and the properties are about the process while it runs.
    - An exception that escapes a handler ends the run ([inl]).
    - A [WebSocket] object is its allocation number; [next_socket] is the
      number of the object the next completed handshake creates.
    - The closures subscribed by [fromEvent(ws, 'message')] and
      [fromEvent(ws, 'close')] capture [public_key] and [terminal_id]; they
      are kept in [subscriptions].  The captured [terminalInfos] and
      [mapTerminalIdToSocket] objects are the entries of the process-wide
      maps under [public_key], which are created once and never replaced.
    - JavaScript runs one handler at a time, to completion: a handler is
      one step of the event loop.
    - [verifyMessage], [JSON.parse] and the admin key are parameters.
    - The [Terminal] of [@yuants/protocol] is outside this file. What its
      runtime does appears as events: a call of a service the host
      terminal provides, and the settling of an attempt of a [Ping]
      request (a reply within the timeout, or an error).
    - Of rxjs the model keeps what the state depends on: [retry(3)]
      subscribes again while its counter [soFar] is below 3 and lets the
      error through otherwise; [mergeMap] completes, and [repeat]
      subscribes again, once every probe has completed; [shareReplay(1)]
      replays the latest value of the interval. *)

From Stdlib Require Import Ascii.
From stdpp Require Import gmap strings list fin_maps.

Local Open Scope string_scope.
Local Open Scope list_scope.
Set Warnings "-register-all,-clear-no-such-hyp".

(** ** Values *)

Abbreviation WebSocket := nat.

(** A JavaScript value as a key of a [Map], which compares keys with
    SameValueZero. A number is the text [String(n)] of the double (equal
    numbers have equal texts, and the two zeros share one); an object or
    an array is its identity, kept with the text it converts to. *)
Inductive jskey :=
| KUndefined
| KNull
| KBool (b : bool)
| KNumber (text : string)
| KString (s : string)
| KObject (identity : nat) (text : string).

#[global] Instance jskey_eq_dec : EqDecision jskey.
Proof. solve_decision. Defined.

Definition jskey_encode (k : jskey) : unit + unit + bool + string + string + nat * string :=
  match k with
  | KUndefined => inl (inl (inl (inl (inl tt))))
  | KNull => inl (inl (inl (inl (inr tt))))
  | KBool b => inl (inl (inl (inr b)))
  | KNumber text => inl (inl (inr text))
  | KString s => inl (inr s)
  | KObject n text => inr (n, text)
  end.

Definition jskey_decode (x : unit + unit + bool + string + string + nat * string) : jskey :=
  match x with
  | inl (inl (inl (inl (inl _)))) => KUndefined
  | inl (inl (inl (inl (inr _)))) => KNull
  | inl (inl (inl (inr b))) => KBool b
  | inl (inl (inr text)) => KNumber text
  | inl (inr s) => KString s
  | inr (n, text) => KObject n text
  end.

#[global] Instance jskey_countable : Countable jskey.
Proof. apply (inj_countable' jskey_encode jskey_decode). by intros []. Defined.

(** [ToPropertyKey]: the name under which a value reads a property. *)
Definition property_key (k : jskey) : string :=
  match k with
  | KUndefined => "undefined"
  | KNull => "null"
  | KBool true => "true"
  | KBool false => "false"
  | KNumber text => text
  | KString s => s
  | KObject _ text => text
  end.

(** Modelled from the spec: the declaration of [ITerminalInfo] in
    [@yuants/protocol] is not among the sources. A terminal reports its
    terminal id, a display name and implementation-defined extra fields;
    the extra fields are kept as an opaque text. The declaration makes
    the terminal id a string, but nothing checks what a terminal sends:
    the field holds whatever value the request carried. *)
Record ITerminalInfo := {
  terminal_id : jskey;
  name : string;
  extra : string;
}.

#[global] Instance ITerminalInfo_eq_dec : EqDecision ITerminalInfo.
Proof. solve_decision. Defined.

(** The result of [JSON.parse]. A number is the text [String(n)] of the
    parsed double. *)
Inductive json :=
| JNull
| JBool (b : bool)
| JNumber (literal : string)
| JString (s : string)
| JArray (items : list json)
| JObject (props : list (string * json)).

(** A JavaScript value read from a parsed message. *)
Inductive jsval :=
| VUndefined
| VJson (j : json).

(** Exceptions a handler can let escape. *)
Inductive exn :=
| SyntaxError
| TypeError.

Fixpoint assoc (k : string) (props : list (string * json)) : option json :=
  match props with
  | [] => None
  | (k', v) :: rest => if decide (k' = k) then Some v else assoc k rest
  end.

(** [msg.k]: reading a property of [null] throws a [TypeError]; a
    primitive or an array has no such property. *)
Definition get_property (k : string) (msg : json) : exn + jsval :=
  match msg with
  | JNull => inl TypeError
  | JObject props =>
      inr (match assoc k props with Some v => VJson v | None => VUndefined end)
  | _ => inr VUndefined
  end.

(** A value read from a parsed message, as [Map.has] compares it with
    the keys: a primitive is compared by value; an object or an array has
    just been created by the parser and is the same as no key ([None]). *)
Definition key_of (v : jsval) : option jskey :=
  match v with
  | VUndefined => Some KUndefined
  | VJson JNull => Some KNull
  | VJson (JBool b) => Some (KBool b)
  | VJson (JNumber text) => Some (KNumber text)
  | VJson (JString s) => Some (KString s)
  | VJson (JArray _) | VJson (JObject _) => None
  end.

(** The names every plain object inherits from [Object.prototype]. *)
Definition Object_prototype : list string :=
  ["constructor"; "__defineGetter__"; "__defineSetter__"; "hasOwnProperty";
   "__lookupGetter__"; "__lookupSetter__"; "isPrototypeOf"; "propertyIsEnumerable";
   "toString"; "valueOf"; "__proto__"; "toLocaleString"].

(** What [obj[k]] reads on a [Record<string, WebSocket>] built from
    [{}]: the socket stored under [k], or the member of
    [Object.prototype] of that name (a function, or the prototype itself:
    truthy, and without [close], [send] or [terminate]), or
    [undefined]. *)
Inductive property :=
| Own (ws : WebSocket)
| Inherited
| Absent.

Definition get (obj : gmap string WebSocket) (k : string) : property :=
  match obj !! k with
  | Some ws => Own ws
  | None => if bool_decide (k ∈ Object_prototype) then Inherited else Absent
  end.

(** ** Effects *)

Inductive log_line :=
| AuthFailed (reason : string)
| TerminalConnected (public_key terminal_id : string)
| TerminalReplaced (public_key terminal_id : string)
| TerminalDisconnected (public_key terminal_id : string)
| TerminalPingFailed (target_terminal_id : jskey).

Inductive effect :=
| ConsoleInfo (l : log_line)
| SocketWrite (bytes : string)          (* socket.write on the raw transport *)
| SocketDestroy                         (* socket.destroy on the raw transport *)
| NewTerminal (public_key signature : string) (admin : bool)
| WsClose (ws : WebSocket)              (* ws.close() *)
| WsTerminate (ws : WebSocket)          (* ws.terminate() *)
| WsSend (ws : WebSocket) (data : string)  (* ws.send(data) *)
| TerminalInfoNext (public_key : string) (info : ITerminalInfo).

#[global] Instance log_line_eq_dec : EqDecision log_line.
Proof. solve_decision. Defined.
#[global] Instance effect_eq_dec : EqDecision effect.
Proof. solve_decision. Defined.

(** What running a handler that may throw yields. *)
Inductive outcome :=
| Returned (effects : list effect)
| Threw (e : exn).

Definition CRLF : string := String "013"%char (String "010"%char EmptyString).
Definition unauthorized : string := "HTTP/1.1 401 Unauthorized" +:+ CRLF +:+ CRLF.

(** ** State *)

Record Hub := {
  mapPublicKeyToTerminalIdToSocket : gmap string (gmap string WebSocket);
  mapPublicKeyToSignature : gmap string string;
  mapPublicKeyToTerminalInfos : gmap string (gmap jskey ITerminalInfo);
  (* closures subscribed to the events of an accepted socket *)
  subscriptions : gmap WebSocket (string * string);
  next_socket : WebSocket;
  (* value replayed by [listTerminalsMessage$] of each host terminal *)
  listTerminalsMessage : gmap string (list ITerminalInfo);
  (* probes in flight, with the [soFar] counter of their [retry(3)] *)
  pings : gmap string (gmap jskey nat);
}.

Definition initial : Hub := {|
  mapPublicKeyToTerminalIdToSocket := ∅;
  mapPublicKeyToSignature := ∅;
  mapPublicKeyToTerminalInfos := ∅;
  subscriptions := ∅;
  next_socket := 0;
  listTerminalsMessage := ∅;
  pings := ∅;
|}.

(** The query parameters of an upgrade request, and whether the WebSocket
    handshake of [wss.handleUpgrade] completes (its callback runs only
    then). *)
Record request := {
  public_key : option string;
  req_terminal_id : option string;
  signature : option string;
  handshake : bool;
}.

(** What the event loop dispatches. *)
Inductive event :=
| Upgrade (req : request)                     (* 'upgrade' on the HTTP server *)
| Message (ws : WebSocket) (data : string)    (* 'message' on an accepted socket *)
| Close (ws : WebSocket)                      (* 'close' on an accepted socket *)
| CallUpdateTerminalInfo (pk : string) (req : ITerminalInfo)
                                              (* a call of [UpdateTerminalInfo] *)
| Tick (pk : string)                          (* [interval(1000)] emits *)
| Sweep (pk : string)                         (* the delay of [repeat] elapses *)
| PingOk (pk : string) (target : jskey)       (* an attempt of a probe gets its reply *)
| PingError (pk : string) (target : jskey).   (* an attempt of a probe errors *)

(** [m[k] ??= {}] *)
Definition ensure `{Countable K} {V} (k : string) (m : gmap string (gmap K V)) :
    gmap string (gmap K V) :=
  match m !! k with
  | Some _ => m
  | None => <[k := ∅]> m
  end.

(** The object stored under [k], as a closure that captured it sees it. *)
Definition at_key `{Countable K} {V} (k : string) (m : gmap string (gmap K V)) :
    gmap K V :=
  default ∅ (m !! k).

(** [!x] for a query parameter: [null] and the empty string are falsy. *)
Definition missing (x : option string) : bool :=
  match x with
  | None => true
  | Some s => bool_decide (s = "")
  end.

Definition set_pings (p : gmap string (gmap jskey nat)) (st : Hub) : Hub := {|
  mapPublicKeyToTerminalIdToSocket := mapPublicKeyToTerminalIdToSocket st;
  mapPublicKeyToSignature := mapPublicKeyToSignature st;
  mapPublicKeyToTerminalInfos := mapPublicKeyToTerminalInfos st;
  subscriptions := subscriptions st;
  next_socket := next_socket st;
  listTerminalsMessage := listTerminalsMessage st;
  pings := p;
|}.

(** [retry(3)] *)
Definition retry_count : nat := 3.

(** The non-null assertion [params.get(k)!]: the value as it is. *)
Definition param (x : option string) : string := default "" x.

(** ** A concrete environment for the examples

    The examples below run the handlers on concrete frames and requests.
    They use the following stand-ins, which agree with the real functions
    on every input the examples feed them. *)

(** Signatures for the examples: the two texts ["sig:" ++ pk] and
    ["SIG:" ++ pk] are valid signatures of the empty message under [pk]. *)
Definition example_verifyMessage (message signature public_key : string) : bool :=
  bool_decide (message = "") &&
  (bool_decide (signature = "sig:" +:+ public_key) ||
   bool_decide (signature = "SIG:" +:+ public_key)).

Definition dquote : ascii := "034"%char.

(** The frame [{"target_terminal_id":"t"}]. *)
Definition frame_to (t : string) : string :=
  "{" +:+ String dquote "target_terminal_id" +:+ String dquote ":"
      +:+ String dquote t +:+ String dquote "}".

Fixpoint strip_prefix (p s : string) : option string :=
  match p, s with
  | EmptyString, _ => Some s
  | String a p', String b s' => if decide (a = b) then strip_prefix p' s' else None
  | String _ _, EmptyString => None
  end.

(** Characters that stand for themselves inside a JSON string. *)
Definition plain (c : ascii) : bool :=
  let n := nat_of_ascii c in
  (32 <=? n)%nat && (n <? 127)%nat && negb (n =? 34)%nat && negb (n =? 92)%nat.

(** The text of a JSON string of plain characters, up to its closing
    quote, and what follows it. *)
Fixpoint string_body (s : string) : option (string * string) :=
  match s with
  | EmptyString => None
  | String c rest =>
      if decide (c = dquote) then Some (EmptyString, rest)
      else if plain c
      then match string_body rest with
           | Some (body, after) => Some (String c body, after)
           | None => None
           end
      else None
  end.

(** The frame [{"target_terminal_id":n}], for the digits [n] of a number. *)
Definition frame_to_number (n : string) : string :=
  "{" +:+ String dquote "target_terminal_id" +:+ String dquote ":" +:+ n +:+ "}".

Definition digit (c : ascii) : bool :=
  let n := nat_of_ascii c in (48 <=? n)%nat && (n <=? 57)%nat.

(** The leading digits of a text, and what follows them. *)
Fixpoint digits (s : string) : string * string :=
  match s with
  | EmptyString => (EmptyString, EmptyString)
  | String c rest =>
      if digit c
      then let '(ds, after) := digits rest in (String c ds, after)
      else (EmptyString, s)
  end.

(** A decimal integer the parser accepts and [String] prints back as it
    is written: one to fifteen digits, without a leading zero unless it
    is [0]. *)
Definition integer_literal (ds : string) : bool :=
  match ds with
  | EmptyString => false
  | String c rest =>
      (bool_decide (rest = EmptyString) || negb (bool_decide (c = "0"%char))) &&
      (String.length ds <=? 15)%nat
  end.

(** A parser for the JSON texts [null], [{}], [{"target_terminal_id":"t"}]
    with [t] made of plain characters, and [{"target_terminal_id":n}]
    with [n] an integer literal as above; every other text is rejected. *)
Definition example_JSON_parse (data : string) : option json :=
  if decide (data = "null") then Some JNull
  else if decide (data = "{}") then Some (JObject [])
  else
    match strip_prefix ("{" +:+ String dquote "target_terminal_id" +:+ String dquote ":")
                       data with
    | Some (String c rest) =>
        if decide (c = dquote)
        then match string_body rest with
             | Some (t, after) =>
                 if decide (after = "}")
                 then Some (JObject [("target_terminal_id", JString t)])
                 else None
             | None => None
             end
        else let '(ds, after) := digits (String c rest) in
             if integer_literal ds && bool_decide (after = "}")
             then Some (JObject [("target_terminal_id", JNumber ds)])
             else None
    | _ => None
    end.

Definition example_request (pk tid sig : string) : request :=
  {| public_key := Some pk; req_terminal_id := Some tid; signature := Some sig;
     handshake := true |}.

Definition example_info (tid : string) : ITerminalInfo :=
  {| terminal_id := KString tid; name := "Alpha"; extra := "" |}.

(** ** Handlers *)

(** What the host takes from its platform: [verifyMessage] of
    [@yuants/utils], [JSON.parse(origin.data.toString())] ([None] when
    it throws a [SyntaxError]), and the public key of [ADMIN_KEY_PAIR]. *)
Class Platform := {
  verifyMessage : string -> string -> string -> bool;
  JSON_parse : string -> option json;
  ADMIN_public_key : string;
}.

Section Host.

Context `{Platform}.

(** [validateAuth] returns normally ([inr]) or throws an [Error] with the
    given message ([inl]). *)
Definition validateAuth (req : request) : string + unit :=
  if missing (public_key req) then inl "public_key is required"
  else if missing (req_terminal_id req) then inl "terminal_id is required"
  else if missing (signature req) then inl "signature is required"
  else if negb (verifyMessage "" (param (signature req)) (param (public_key req)))
       then inl "signature is invalid"
  else inr tt.

(** The subscription of the phantom-elimination pipeline: one probe per
    key of [terminalInfos], each with a fresh [retry] counter. *)
Definition start_sweep (pk : string) (st : Hub) : Hub :=
  set_pings (<[pk := (λ _, 0) <$> at_key pk (mapPublicKeyToTerminalInfos st)]> (pings st)) st.

(** [mapTerminalIdToSocket[terminal_id] = ws] and the two subscriptions
    of the new socket [ws]. *)
Definition register (pk tid : string) (st : Hub) : Hub :=
  let ws := next_socket st in {|
  mapPublicKeyToTerminalIdToSocket :=
    alter (insert tid ws) pk (mapPublicKeyToTerminalIdToSocket st);
  mapPublicKeyToSignature := mapPublicKeyToSignature st;
  mapPublicKeyToTerminalInfos := mapPublicKeyToTerminalInfos st;
  subscriptions := <[ws := (pk, tid)]> (subscriptions st);
  next_socket := S ws;
  listTerminalsMessage := listTerminalsMessage st;
  pings := pings st |}.

(** The callback of [wss.handleUpgrade]. When [oldTerminal] is a member
    of [Object.prototype], [oldTerminal.close()] throws a [TypeError]
    before anything is registered. *)
Definition handleUpgrade (pk tid : string) (st : Hub) : exn + Hub * list effect :=
  let oldTerminal := get (at_key pk (mapPublicKeyToTerminalIdToSocket st)) tid in
  match oldTerminal with
  | Own old =>
      inr (register pk tid st,
           [ConsoleInfo (TerminalConnected pk tid);
            ConsoleInfo (TerminalReplaced pk tid); WsClose old])
  | Inherited => inl TypeError
  | Absent => inr (register pk tid st, [ConsoleInfo (TerminalConnected pk tid)])
  end.

(** The state once authentication has passed and the maps of the tenant
    exist, before [wss.handleUpgrade]. *)
Definition authenticated (pk sig : string) (st : Hub) : Hub :=
  let st1 := {|
    mapPublicKeyToTerminalIdToSocket := mapPublicKeyToTerminalIdToSocket st;
    mapPublicKeyToSignature := <[pk := sig]> (mapPublicKeyToSignature st);
    mapPublicKeyToTerminalInfos := ensure pk (mapPublicKeyToTerminalInfos st);
    subscriptions := subscriptions st;
    next_socket := next_socket st;
    listTerminalsMessage := listTerminalsMessage st;
    pings := pings st |} in
  let st2 :=
    match mapPublicKeyToTerminalIdToSocket st !! pk with
    | None => start_sweep pk st1      (* Lazy Init Host *)
    | Some _ => st1
    end in
  {| mapPublicKeyToTerminalIdToSocket := ensure pk (mapPublicKeyToTerminalIdToSocket st2);
     mapPublicKeyToSignature := mapPublicKeyToSignature st2;
     mapPublicKeyToTerminalInfos := mapPublicKeyToTerminalInfos st2;
     subscriptions := subscriptions st2;
     next_socket := next_socket st2;
     listTerminalsMessage := listTerminalsMessage st2;
     pings := pings st2 |}.

(** What [Lazy Init Host] does to the outside: the host terminal of
    the key is created when the key has no connection map yet. *)
Definition host_terminal (pk sig : string) (st : Hub) : list effect :=
  match mapPublicKeyToTerminalIdToSocket st !! pk with
  | None => [NewTerminal pk sig (bool_decide (pk = ADMIN_public_key))]
  | Some _ => []
  end.

(** [server.on('upgrade', ...)] *)
Definition upgrade (req : request) (st : Hub) : exn + Hub * list effect :=
  match validateAuth req with
  | inl reason =>
      inr (st, [ConsoleInfo (AuthFailed reason); SocketWrite unauthorized; SocketDestroy])
  | inr _ =>
      let pk := param (public_key req) in
      let tid := param (req_terminal_id req) in
      let sig := param (signature req) in
      let host := host_terminal pk sig st in
      let st1 := authenticated pk sig st in
      if handshake req
      then match handleUpgrade pk tid st1 with
           | inl e => inl e
           | inr (st2, effects) => inr (st2, host ++ effects)
           end
      else inr (st1, host)
  end.

(** [terminalInfos.has(v)] *)
Definition has (terminalInfos : gmap jskey ITerminalInfo) (v : jsval) : bool :=
  match key_of v with
  | Some k => bool_decide (is_Some (terminalInfos !! k))
  | None => false
  end.

(** [mapTerminalIdToSocket[v]]: the value is converted to a property
    key. *)
Definition socket_of (mapTerminalIdToSocket : gmap string WebSocket) (v : jsval) :
    property :=
  match key_of v with
  | Some k => get mapTerminalIdToSocket (property_key k)
  | None => Absent
  end.

(** The ['message'] subscription of a socket accepted under [pk]. When
    the property read finds a member of [Object.prototype], calling its
    [send] throws a [TypeError]. *)
Definition forward (pk : string) (data : string) (st : Hub) : outcome :=
  match JSON_parse data with
  | None => Threw SyntaxError
  | Some msg =>
      match get_property "target_terminal_id" msg with
      | inl e => Threw e
      | inr target =>
          if negb (has (at_key pk (mapPublicKeyToTerminalInfos st)) target)
          then Returned []            (* Skip if Terminal Not Found *)
          else
            match socket_of (at_key pk (mapPublicKeyToTerminalIdToSocket st)) target with
            | Own s => Returned [WsSend s data]
            | Inherited => Threw TypeError
            | Absent => Returned []
            end
      end
  end.

(** The three statements shared by the ['close'] subscription and the
    error handler of a probe, for the metadata key [k]: the socket is
    read and deleted under the property key of [k]. Where that read
    finds a member of [Object.prototype], [terminate] is no function and
    the call throws after the metadata entry has been deleted; the
    connection map has no entry of its own under that name, so the state
    is the same as when the last statement runs. In the error handler of
    a probe the [TypeError] goes to [catchError]. A ['close']
    subscription exists only for a terminal id that [handleUpgrade]
    accepted, which is no such name. *)
Definition evict (pk : string) (k : jskey) (st : Hub) : Hub * list effect :=
  ({| mapPublicKeyToTerminalIdToSocket :=
        alter (delete (property_key k)) pk (mapPublicKeyToTerminalIdToSocket st);
      mapPublicKeyToSignature := mapPublicKeyToSignature st;
      mapPublicKeyToTerminalInfos :=
        alter (delete k) pk (mapPublicKeyToTerminalInfos st);
      subscriptions := subscriptions st;
      next_socket := next_socket st;
      listTerminalsMessage := listTerminalsMessage st;
      pings := pings st |},
   match at_key pk (mapPublicKeyToTerminalIdToSocket st) !! property_key k with
   | Some s => [WsTerminate s]
   | None => []
   end).

(** The ['close'] subscription of a socket accepted as [(pk, tid)]. *)
Definition unregister (pk tid : string) (st : Hub) : Hub * list effect :=
  let '(st', effects) := evict pk (KString tid) st in
  (st', ConsoleInfo (TerminalDisconnected pk tid) :: effects).

(** The [error] handler tapped on a probe. *)
Definition ping_failed (pk : string) (target : jskey) (st : Hub) : Hub * list effect :=
  let '(st', effects) := evict pk target st in
  (st', ConsoleInfo (TerminalPingFailed target) :: effects).

(** The [UpdateTerminalInfo] service of the host terminal of [pk]. *)
Definition UpdateTerminalInfo (pk : string) (req : ITerminalInfo) (st : Hub) :
    Hub * list effect :=
  ({| mapPublicKeyToTerminalIdToSocket := mapPublicKeyToTerminalIdToSocket st;
      mapPublicKeyToSignature := mapPublicKeyToSignature st;
      mapPublicKeyToTerminalInfos :=
        alter (insert (terminal_id req) req) pk (mapPublicKeyToTerminalInfos st);
      subscriptions := subscriptions st;
      next_socket := next_socket st;
      listTerminalsMessage := listTerminalsMessage st;
      pings := pings st |},
   [TerminalInfoNext pk req]).

(** [[...terminalInfos.values()]] *)
Definition snapshot (pk : string) (st : Hub) : list ITerminalInfo :=
  (map_to_list (at_key pk (mapPublicKeyToTerminalInfos st))).*2.

(** An emission of [interval(1000)] under [listTerminalsMessage$]: the
    replayed value becomes the snapshot of that moment. *)
Definition tick (pk : string) (st : Hub) : Hub := {|
  mapPublicKeyToTerminalIdToSocket := mapPublicKeyToTerminalIdToSocket st;
  mapPublicKeyToSignature := mapPublicKeyToSignature st;
  mapPublicKeyToTerminalInfos := mapPublicKeyToTerminalInfos st;
  subscriptions := subscriptions st;
  next_socket := next_socket st;
  listTerminalsMessage := <[pk := snapshot pk st]> (listTerminalsMessage st);
  pings := pings st;
|}.

(** The [ListTerminals] service: the first value of the replay; [None]
    while nothing has been emitted yet (the reply waits for a tick). *)
Definition ListTerminals (pk : string) (st : Hub) : option (list ITerminalInfo) :=
  listTerminalsMessage st !! pk.

(** The [ListHost] service, provided by the host terminal of the admin
    key only. The list holds the entries of [mapPublicKeyToSignature];
    the order in which [Object.entries] yields them is not represented. *)
Definition ListHost (pk : string) (st : Hub) : option (list (string * string)) :=
  match mapPublicKeyToTerminalIdToSocket st !! pk with
  | Some _ =>
      if bool_decide (pk = ADMIN_public_key)
      then Some (map_to_list (mapPublicKeyToSignature st))
      else None
  | None => None
  end.

(** [repeat({ delay: 10000 })]: once every probe of the sweep has
    completed, the pipeline is subscribed again. *)
Definition repeat (pk : string) (st : Hub) : Hub :=
  match pings st !! pk with
  | Some inflight => if decide (inflight = ∅) then start_sweep pk st else st
  | None => st
  end.

(** A probe emits its reply within the timeout: it completes, and the
    [tap] has no [next] handler. *)
Definition ping_ok (pk : string) (target : jskey) (st : Hub) : Hub :=
  set_pings (alter (delete target) pk (pings st)) st.

(** An attempt of a probe errors (timeout, or no reply at all):
    [retry] subscribes again while [soFar++ < count], and lets the error
    through to the [tap] otherwise. *)
Definition ping_error (pk : string) (target : jskey) (st : Hub) : Hub * list effect :=
  match at_key pk (pings st) !! target with
  | None => (st, [])
  | Some soFar =>
      if (soFar <? retry_count)%nat
      then (set_pings (alter (insert target (S soFar)) pk (pings st)) st, [])
      else
        let '(st', effects) := ping_failed pk target st in
        (set_pings (alter (delete target) pk (pings st')) st', effects)
  end.

(** ** The event loop *)

Definition step (ev : event) (st : Hub) : exn + Hub * list effect :=
  match ev with
  | Upgrade req => upgrade req st
  | Message ws data =>
      match subscriptions st !! ws with
      | Some (pk, _) =>
          match forward pk data st with
          | Returned effects => inr (st, effects)
          | Threw e => inl e
          end
      | None => inr (st, [])
      end
  | Close ws =>
      match subscriptions st !! ws with
      | Some (pk, tid) => inr (unregister pk tid st)
      | None => inr (st, [])
      end
  | CallUpdateTerminalInfo pk req =>
      match mapPublicKeyToTerminalIdToSocket st !! pk with
      | Some _ => inr (UpdateTerminalInfo pk req st)
      | None => inr (st, [])
      end
  | Tick pk =>
      match mapPublicKeyToTerminalIdToSocket st !! pk with
      | Some _ => inr (tick pk st, [])
      | None => inr (st, [])
      end
  | Sweep pk => inr (repeat pk st, [])
  | PingOk pk target => inr (ping_ok pk target st, [])
  | PingError pk target => inr (ping_error pk target st)
  end.

(** Events handled one after the other; an exception that escapes a
    handler ends the run. *)
Fixpoint run (evs : list event) (st : Hub) : exn + Hub * list effect :=
  match evs with
  | [] => inr (st, [])
  | ev :: rest =>
      match step ev st with
      | inl e => inl e
      | inr (st1, effects1) =>
          match run rest st1 with
          | inl e => inl e
          | inr (st2, effects2) => inr (st2, effects1 ++ effects2)
          end
      end
  end.

Inductive reachable : Hub -> Prop :=
| reachable_initial : reachable initial
| reachable_step st ev st' effects :
    reachable st -> step ev st = inr (st', effects) -> reachable st'.

(** ** Notions used to state the properties *)

(** The state without the bookkeeping of the probes in flight. *)
Definition registry (st : Hub) :=
  (mapPublicKeyToTerminalIdToSocket st, mapPublicKeyToSignature st,
   mapPublicKeyToTerminalInfos st, subscriptions st, next_socket st,
   listTerminalsMessage st).

(** What belongs to one tenant. *)
Definition tenant_view (pk : string) (st : Hub) :=
  (mapPublicKeyToTerminalIdToSocket st !! pk, mapPublicKeyToTerminalInfos st !! pk,
   listTerminalsMessage st !! pk, pings st !! pk).

(** The public key under which an event is performed. *)
Definition event_tenant (ev : event) (st : Hub) : option string :=
  match ev with
  | Upgrade req =>
      match validateAuth req with
      | inr _ => Some (param (public_key req))
      | inl _ => None
      end
  | Message ws _ | Close ws => fst <$> subscriptions st !! ws
  | CallUpdateTerminalInfo pk _ | Tick pk | Sweep pk
  | PingOk pk _ | PingError pk _ => Some pk
  end.

(** The signature with which [ev] authenticates a connection under [pk]. *)
Definition authenticates (pk : string) (ev : event) : option string :=
  match ev with
  | Upgrade req =>
      match validateAuth req with
      | inr _ =>
          if decide (param (public_key req) = pk)
          then Some (param (signature req)) else None
      | inl _ => None
      end
  | _ => None
  end.

Fixpoint first_authenticated (pk : string) (evs : list event) : option string :=
  match evs with
  | [] => None
  | ev :: rest =>
      match authenticates pk ev with
      | Some sig => Some sig
      | None => first_authenticated pk rest
      end
  end.

Fixpoint last_authenticated (pk : string) (evs : list event) : option string :=
  match evs with
  | [] => None
  | ev :: rest =>
      match last_authenticated pk rest with
      | Some sig => Some sig
      | None => authenticates pk ev
      end
  end.

(** [k] consecutive failed attempts of the probe of [target]. *)
Definition failures (k : nat) (pk : string) (target : jskey) : list event :=
  replicate k (PingError pk target).

(** The calls made on socket [s] among [effects]. *)
Definition delivered_to (s : WebSocket) (effects : list effect) : list string :=
  omap (λ e, match e with
             | WsSend s' data => if decide (s' = s) then Some data else None
             | _ => None
             end) effects.

(** No probe has used more retries than [retry] grants. *)
Definition bounded (p : gmap string (gmap jskey nat)) : Prop :=
  ∀ pk t k, at_key pk p !! t = Some k → (k ≤ retry_count)%nat.

(** What holds of every state the host can be in. *)
Record wf (st : Hub) : Prop := {
  wf_owner : ∀ pk tid s,
    at_key pk (mapPublicKeyToTerminalIdToSocket st) !! tid = Some s →
    subscriptions st !! s = Some (pk, tid);
  wf_allocated : ∀ s c, subscriptions st !! s = Some c → s < next_socket st;
  wf_subscribed : ∀ s pk tid,
    subscriptions st !! s = Some (pk, tid) →
    is_Some (mapPublicKeyToTerminalIdToSocket st !! pk);
  wf_tenant : ∀ pk,
    is_Some (mapPublicKeyToTerminalIdToSocket st !! pk) →
    is_Some (mapPublicKeyToTerminalInfos st !! pk) ∧ is_Some (pings st !! pk) ∧
    is_Some (mapPublicKeyToSignature st !! pk);
  wf_info_key : ∀ pk k info,
    at_key pk (mapPublicKeyToTerminalInfos st) !! k = Some info → terminal_id info = k;
  wf_counter : bounded (pings st);
  wf_names : ∀ s pk tid,
    subscriptions st !! s = Some (pk, tid) → tid ∉ Object_prototype;
}.

End Host.

(** The environment of the examples. *)
Definition example_platform : Platform := {|
  verifyMessage := example_verifyMessage;
  JSON_parse := example_JSON_parse;
  ADMIN_public_key := "admin";
|}.

Definition example_run : list event → Hub → exn + Hub * list effect :=
  @run example_platform.

(** The state and the effects of a run of the examples from the initial
    state (the initial state and no effect if it throws). *)
Definition state_after (evs : list event) : Hub :=
  match example_run evs initial with
  | inr (st, _) => st
  | inl _ => initial
  end.

Definition effects_after (evs : list event) : list effect :=
  match example_run evs initial with
  | inr (_, effects) => effects
  | inl _ => []
  end.

(** [t1] connects under [K] and reports its metadata. *)
Definition t1_listed : list event :=
  [Upgrade (example_request "K" "t1" "sig:K");
   CallUpdateTerminalInfo "K" (example_info "t1")].

(** Then a second socket connects as [t1] under [K], and the first
    socket emits its ['close'] event. *)
Definition t1_replaced : list event :=
  t1_listed ++ [Upgrade (example_request "K" "t1" "sig:K"); Close 0; Tick "K"].

(** [t1] is listed and a sweep has subscribed its probe. *)
Definition t1_probed : list event := t1_listed ++ [Sweep "K"].

(** [t1] is connected under [K]; metadata is reported for [t2], which
    has no socket. *)
Definition t2_listed_only : list event :=
  [Upgrade (example_request "K" "t1" "sig:K");
   CallUpdateTerminalInfo "K" (example_info "t2")].

(** [t1] is connected under [K] and has not reported metadata; [t2] is
    connected and listed under [K]; [t9] is connected and listed under
    [L]. *)
Definition two_tenants : list event :=
  [Upgrade (example_request "K" "t1" "sig:K");
   Upgrade (example_request "K" "t2" "sig:K");
   CallUpdateTerminalInfo "K" (example_info "t2");
   Upgrade (example_request "L" "t9" "sig:L");
   CallUpdateTerminalInfo "L" (example_info "t9")].

(** Two connections authenticate under the admin key with different
    signatures, both valid. *)
Definition two_signatures : list event :=
  [Upgrade (example_request "admin" "t1" "sig:admin");
   Upgrade (example_request "admin" "t2" "SIG:admin")].

(** [t1] and a terminal with the id ["5"] connect under [K]; a terminal
    reports metadata whose [terminal_id] is the number [5]. *)
Definition number_listed : list event :=
  [Upgrade (example_request "K" "t1" "sig:K");
   Upgrade (example_request "K" "5" "sig:K");
   CallUpdateTerminalInfo "K" {| terminal_id := KNumber "5"; name := "Alpha"; extra := "" |}].

(** [t1] connects under [K]; a terminal reports metadata for the id
    ["constructor"], under which no socket is registered. *)
Definition constructor_listed : list event :=
  [Upgrade (example_request "K" "t1" "sig:K");
   CallUpdateTerminalInfo "K" (example_info "constructor")].

(** The administrator and the tenant [K] each connect a terminal. *)
Definition admin_and_tenant : list event :=
  [Upgrade (example_request "admin" "t1" "sig:admin");
   Upgrade (example_request "K" "t1" "sig:K")].

(** ** Further notions *)

(** The effect of [new Terminal(...)] for the host terminal of [pk]. *)
Definition creates_host (pk : string) (e : effect) : bool :=
  match e with
  | NewTerminal pk' _ _ => bool_decide (pk' = pk)
  | _ => false
  end.

(** How many host terminals are created for [pk] among [effects]. *)
Definition hosts_created (pk : string) (effects : list effect) : nat :=
  length (List.filter (creates_host pk) effects).

(** The maps of a tenant exist together. *)
Definition aligned (st : Hub) : Prop :=
  ∀ pk,
    (is_Some (mapPublicKeyToTerminalInfos st !! pk) →
     is_Some (mapPublicKeyToTerminalIdToSocket st !! pk)) ∧
    (is_Some (mapPublicKeyToSignature st !! pk) →
     is_Some (mapPublicKeyToTerminalIdToSocket st !! pk)) ∧
    (is_Some (pings st !! pk) →
     is_Some (mapPublicKeyToTerminalIdToSocket st !! pk)) ∧
    (is_Some (listTerminalsMessage st !! pk) →
     is_Some (mapPublicKeyToTerminalIdToSocket st !! pk)).


(** ** The transfer routing cache

    [ITransferPair], [ITransferRoutingCache] and
    [wrapTransferRoutingCache], with the fields of [IDataRecord] that the
    wrapper fills. *)

Record ITransferPair := {
  tx_account_id : option string;
  rx_account_id : option string;
  tx_address : option string;
  rx_address : option string;
  network_id : option string;
}.

Record ITransferRoutingCache := {
  credit_account_id : string;
  debit_account_id : string;
  routing_path : list ITransferPair;
}.

Record IDataRecord (T : Type) := {
  id : string;
  type : string;
  created_at : Z;
  updated_at : Z;
  frozen_at : option Z;
  tags : list (string * string);
  origin : T;
}.

Arguments id {T}.
Arguments type {T}.
Arguments created_at {T}.
Arguments updated_at {T}.
Arguments frozen_at {T}.
Arguments tags {T}.
Arguments origin {T}.

(** [now1] and [now2] are the two readings of [Date.now()]. *)
Definition wrapTransferRoutingCache (now1 now2 : Z) (o : ITransferRoutingCache) :
    IDataRecord ITransferRoutingCache := {|
  id := credit_account_id o +:+ "-" +:+ debit_account_id o;
  type := "transfer_routing_cache";
  created_at := now1;
  updated_at := now2;
  frozen_at := None;
  tags := [("credit_account_id", credit_account_id o);
           ("debit_account_id", debit_account_id o)];
  origin := o;
|}.

(** Whether [c] occurs in [s]. *)
Fixpoint occurs (c : ascii) (s : string) : bool :=
  match s with
  | EmptyString => false
  | String a rest => bool_decide (a = c) || occurs c rest
  end.

(** * Properties *)

Section Properties.

Context `{platform : Platform}.

(** ** Nested maps *)

Lemma at_key_ensure `{Countable K} {V} (k k' : string) (m : gmap string (gmap K V)) :
  at_key k' (ensure k m) = at_key k' m.
Proof.
  unfold at_key, ensure. destruct (m !! k) eqn:E; [done|].
  destruct (decide (k = k')) as [->|Hne].
  - by rewrite lookup_insert_eq, E.
  - by rewrite lookup_insert_ne.
Qed.

Lemma ensure_is_Some `{Countable K} {V} (k k' : string) (m : gmap string (gmap K V)) :
  is_Some (ensure k m !! k') ↔ k = k' ∨ is_Some (m !! k').
Proof.
  unfold ensure. destruct (m !! k) eqn:E.
  - split; [by right|]. intros [->|?]; [by rewrite E|done].
  - rewrite lookup_insert_is_Some. split; [intros [?|[? ?]]; auto|].
    intros [?|?]; [by left|]. destruct (decide (k = k')); [by left|by right].
Qed.

Lemma ensure_ne `{Countable K} {V} (k k' : string) (m : gmap string (gmap K V)) :
  k ≠ k' → ensure k m !! k' = m !! k'.
Proof.
  intros Hne. unfold ensure. destruct (m !! k); [done|]. by rewrite lookup_insert_ne.
Qed.

Lemma at_key_alter_eq `{Countable K} {V} (f : gmap K V → gmap K V) k
    (m : gmap string (gmap K V)) :
  is_Some (m !! k) → at_key k (alter f k m) = f (at_key k m).
Proof. intros [x Hx]. unfold at_key. by rewrite lookup_alter_eq, Hx. Qed.

Lemma at_key_alter_ne `{Countable K} {V} (f : gmap K V → gmap K V) k k'
    (m : gmap string (gmap K V)) :
  k ≠ k' → at_key k' (alter f k m) = at_key k' m.
Proof. intros Hne. unfold at_key. by rewrite lookup_alter_ne. Qed.

Lemma at_key_alter_delete `{Countable K} {V} (t : K) (k : string) (m : gmap string (gmap K V)) :
  at_key k (alter (delete t) k m) = delete t (at_key k m).
Proof.
  unfold at_key. rewrite lookup_alter_eq. destruct (m !! k); simpl; [done|].
  by rewrite delete_empty.
Qed.

Lemma at_key_lookup_Some `{Countable K} {V} (k : string) (t : K) (m : gmap string (gmap K V)) x :
  at_key k m !! t = Some x → is_Some (m !! k).
Proof. unfold at_key. destruct (m !! k); [eauto|]. simpl. by rewrite lookup_empty. Qed.

(** ** The invariant *)

Lemma bounded_sweep {V} pk (m : gmap jskey V) p :
  bounded p → bounded (<[pk := (λ _, 0) <$> m]> p).
Proof.
  intros Hp pk' t k. unfold at_key. destruct (decide (pk = pk')) as [<-|Hne].
  - rewrite lookup_insert_eq. simpl. rewrite lookup_fmap.
    destruct (m !! t); simpl; [|done]. intros [= <-]. lia.
  - rewrite lookup_insert_ne by done. apply Hp.
Qed.

Lemma bounded_delete pk target p :
  bounded p → bounded (alter (delete target) pk p).
Proof.
  intros Hp pk' t k. destruct (decide (pk = pk')) as [<-|Hne].
  - rewrite at_key_alter_delete, lookup_delete_Some. intros [_ Hk]. by eapply Hp.
  - rewrite at_key_alter_ne by done. apply Hp.
Qed.

Lemma bounded_retry pk target soFar p :
  (soFar < retry_count)%nat → bounded p →
  bounded (alter (insert target (S soFar)) pk p).
Proof.
  intros Hlt Hp pk' t k. destruct (decide (pk = pk')) as [<-|Hne].
  - unfold at_key at 1. rewrite lookup_alter_eq.
    destruct (p !! pk) as [m|] eqn:E; simpl; [|by rewrite lookup_empty].
    rewrite lookup_insert_Some. intros [[_ <-]|[_ Hk]]; [lia|].
    apply (Hp pk t). unfold at_key. by rewrite E.
  - rewrite at_key_alter_ne by done. apply Hp.
Qed.

Lemma wf_initial : wf initial.
Proof.
  split; try intros pk; simpl; intros *; unfold at_key; rewrite ?lookup_empty; simpl;
    rewrite ?lookup_empty; try done; by intros [? ?].
Qed.

Lemma wf_set_pings p st :
  (∀ pk, is_Some (pings st !! pk) → is_Some (p !! pk)) → bounded p →
  wf st → wf (set_pings p st).
Proof.
  intros Hp Hb [H1 H2 H3 H4 H5 H6 H7]. split; simpl; try done.
  intros pk Hpk. destruct (H4 pk Hpk) as (? & ? & ?). auto.
Qed.

Lemma wf_authenticated pk sig st : wf st → wf (authenticated pk sig st).
Proof.
  intros [H1 H2 H3 H4 H5 H6 H7]. unfold authenticated.
  destruct (mapPublicKeyToTerminalIdToSocket st !! pk) eqn:E; split; simpl;
    try done; try (by apply bounded_sweep);
    intros *; rewrite ?at_key_ensure; eauto.
  - intros Hs. apply ensure_is_Some. right. eauto.
  - rewrite !ensure_is_Some, lookup_insert_is_Some.
    intros [->|Hk]; [|destruct (H4 _ Hk) as (? & ? & ?); destruct (decide (pk = pk0)); auto].
    destruct (H4 pk0) as (? & ? & ?); [by rewrite E|]. auto.
  - intros Hs. apply ensure_is_Some. right. eauto.
  - rewrite !ensure_is_Some, !lookup_insert_is_Some.
    intros [->|Hk]; [auto|]. destruct (H4 _ Hk) as (? & ? & ?).
    destruct (decide (pk = pk0)); auto.
Qed.

Lemma authenticated_tenant pk sig st :
  is_Some (mapPublicKeyToTerminalIdToSocket (authenticated pk sig st) !! pk).
Proof.
  unfold authenticated.
  destruct (mapPublicKeyToTerminalIdToSocket st !! pk); simpl;
    apply ensure_is_Some; by left.
Qed.

Lemma handleUpgrade_inr pk tid st st' effects :
  handleUpgrade pk tid st = inr (st', effects) →
  st' = register pk tid st ∧
  effects =
    ConsoleInfo (TerminalConnected pk tid) ::
    match at_key pk (mapPublicKeyToTerminalIdToSocket st) !! tid with
    | Some old => [ConsoleInfo (TerminalReplaced pk tid); WsClose old]
    | None => []
    end ∧
  (at_key pk (mapPublicKeyToTerminalIdToSocket st) !! tid = None →
   tid ∉ Object_prototype).
Proof.
  unfold handleUpgrade, get.
  destruct (at_key pk (mapPublicKeyToTerminalIdToSocket st) !! tid) as [old|].
  - by intros [= <- <-].
  - case_bool_decide; [done|]. by intros [= <- <-].
Qed.

Lemma handleUpgrade_inl pk tid st e :
  handleUpgrade pk tid st = inl e ↔
  e = TypeError ∧ tid ∈ Object_prototype ∧
  at_key pk (mapPublicKeyToTerminalIdToSocket st) !! tid = None.
Proof.
  unfold handleUpgrade, get.
  destruct (at_key pk (mapPublicKeyToTerminalIdToSocket st) !! tid) as [old|].
  - split; [done|]. by intros (_ & _ & ?).
  - case_bool_decide; [|split; [done|by intros (_ & ? & _)]].
    split; [by intros [= <-]|]. by intros (-> & _).
Qed.

Lemma wf_register pk tid st :
  is_Some (mapPublicKeyToTerminalIdToSocket st !! pk) →
  tid ∉ Object_prototype →
  wf st → wf (register pk tid st).
Proof.
  intros Hpk Hname [H1 H2 H3 H4 H5 H6 H7]. split; simpl; try done.
  - intros pk' tid' s. destruct (decide (pk = pk')) as [<-|Hne].
    + rewrite at_key_alter_eq by done.
      destruct (decide (tid = tid')) as [<-|Hne].
      * rewrite lookup_insert_eq. intros [= <-]. by rewrite lookup_insert_eq.
      * rewrite lookup_insert_ne by done. intros Hs.
        specialize (H1 _ _ _ Hs). rewrite lookup_insert_ne; [done|].
        apply H2 in H1. lia.
    + rewrite at_key_alter_ne by done. intros Hs.
      specialize (H1 _ _ _ Hs). rewrite lookup_insert_ne; [done|].
      apply H2 in H1. lia.
  - intros s c. rewrite lookup_insert_Some. intros [[<- _]|[_ Hs]]; [lia|].
    apply H2 in Hs. lia.
  - intros s pk' tid'. rewrite lookup_alter_is_Some, lookup_insert_Some.
    intros [[_ [= <- <-]]|[_ Hs]]; eauto.
  - intros pk'. rewrite lookup_alter_is_Some. auto.
  - intros s pk' tid'. rewrite lookup_insert_Some.
    intros [[_ [= <- <-]]|[_ Hs]]; eauto.
Qed.

Lemma wf_handleUpgrade pk tid st st' effects :
  is_Some (mapPublicKeyToTerminalIdToSocket st !! pk) →
  handleUpgrade pk tid st = inr (st', effects) →
  wf st → wf st'.
Proof.
  intros Hpk Hup Hwf. apply handleUpgrade_inr in Hup as (-> & _ & Hname).
  apply wf_register; [done| |done].
  destruct (at_key pk (mapPublicKeyToTerminalIdToSocket st) !! tid) as [old|] eqn:E;
    [|by apply Hname].
  eapply wf_names; [done|]. by eapply wf_owner.
Qed.

Lemma wf_evict pk tid st : wf st → wf (evict pk tid st).1.
Proof.
  intros [H1 H2 H3 H4 H5 H6 H7]. split; simpl; try done.
  - intros pk' tid' s. destruct (decide (pk = pk')) as [<-|Hne].
    + rewrite at_key_alter_delete, lookup_delete_Some. intros [_ Hs]. eauto.
    + rewrite at_key_alter_ne by done. eauto.
  - intros s pk' tid'. rewrite lookup_alter_is_Some. eauto.
  - intros pk'. rewrite !lookup_alter_is_Some. auto.
  - intros pk' k info. destruct (decide (pk = pk')) as [<-|Hne].
    + rewrite at_key_alter_delete, lookup_delete_Some. intros [_ Hs]. eauto.
    + rewrite at_key_alter_ne by done. eauto.
Qed.

Lemma wf_UpdateTerminalInfo pk req st : wf st → wf (UpdateTerminalInfo pk req st).1.
Proof.
  intros [H1 H2 H3 H4 H5 H6 H7]. split; simpl; try done.
  - intros pk'. rewrite !lookup_alter_is_Some. auto.
  - intros pk' k info. destruct (decide (pk = pk')) as [<-|Hne].
    + unfold at_key at 1. rewrite lookup_alter_eq.
      destruct (mapPublicKeyToTerminalInfos st !! pk) as [m|] eqn:E; simpl;
        [|by rewrite lookup_empty].
      rewrite lookup_insert_Some. intros [[<- <-]|[_ Hk]]; [done|].
      apply (H5 pk). unfold at_key. by rewrite E.
    + rewrite at_key_alter_ne by done. eauto.
Qed.

Lemma wf_tick pk st : wf st → wf (tick pk st).
Proof. intros [H1 H2 H3 H4 H5 H6 H7]. by split. Qed.

Lemma authenticated_maps pk sig st :
  mapPublicKeyToTerminalIdToSocket (authenticated pk sig st) =
    ensure pk (mapPublicKeyToTerminalIdToSocket st) ∧
  mapPublicKeyToTerminalInfos (authenticated pk sig st) =
    ensure pk (mapPublicKeyToTerminalInfos st) ∧
  mapPublicKeyToSignature (authenticated pk sig st) =
    <[pk := sig]> (mapPublicKeyToSignature st) ∧
  subscriptions (authenticated pk sig st) = subscriptions st ∧
  next_socket (authenticated pk sig st) = next_socket st ∧
  listTerminalsMessage (authenticated pk sig st) = listTerminalsMessage st ∧
  pings (authenticated pk sig st) =
    match mapPublicKeyToTerminalIdToSocket st !! pk with
    | None => <[pk := (λ _, 0) <$> at_key pk (mapPublicKeyToTerminalInfos st)]> (pings st)
    | Some _ => pings st
    end.
Proof.
  unfold authenticated. destruct (mapPublicKeyToTerminalIdToSocket st !! pk); simpl;
    by rewrite ?at_key_ensure.
Qed.

Lemma inr_pair {E A B} (x : A * B) (a : A) (b : B) :
  inr (A := E) x = inr (a, b) → a = x.1 ∧ b = x.2.
Proof. by intros [= ->]. Qed.

(** The ways an upgrade returns. *)
Lemma upgrade_inr req st st' effects :
  upgrade req st = inr (st', effects) →
  (∃ reason, validateAuth req = inl reason ∧ st' = st ∧
     effects = [ConsoleInfo (AuthFailed reason); SocketWrite unauthorized; SocketDestroy]) ∨
  (validateAuth req = inr tt ∧ handshake req = false ∧
   st' = authenticated (param (public_key req)) (param (signature req)) st ∧
   effects = host_terminal (param (public_key req)) (param (signature req)) st) ∨
  (validateAuth req = inr tt ∧ handshake req = true ∧
   ∃ effects2,
     handleUpgrade (param (public_key req)) (param (req_terminal_id req))
       (authenticated (param (public_key req)) (param (signature req)) st) =
       inr (st', effects2) ∧
     effects =
       host_terminal (param (public_key req)) (param (signature req)) st ++ effects2).
Proof.
  unfold upgrade. destruct (validateAuth req) as [reason|[]].
  - intros [= <- <-]. left. by exists reason.
  - destruct (handshake req).
    + destruct (handleUpgrade _ _ _) as [e|[st2 e2]] eqn:E; [done|].
      intros [= <- <-]. right. right. repeat split. by exists e2.
    + intros [= <- <-]. right. left. done.
Qed.

Lemma wf_step ev st st' effects :
  step ev st = inr (st', effects) → wf st → wf st'.
Proof.
  intros Hstep Hwf. destruct ev; simpl in Hstep.
  - apply upgrade_inr in Hstep
      as [(r & _ & -> & _)|[(_ & _ & -> & _)|(_ & _ & e2 & Hup & _)]];
      [done|by apply wf_authenticated|].
    eapply wf_handleUpgrade; [apply authenticated_tenant|done|by apply wf_authenticated].
  - destruct (subscriptions st !! ws) as [[pk tid]|]; [|by injection Hstep as <- _].
    destruct (forward pk data st); [|done]. by injection Hstep as <- _.
  - destruct (subscriptions st !! ws) as [[pk tid]|]; injection Hstep as <- _; [|done].
    by apply (wf_evict pk (KString tid)).
  - destruct (mapPublicKeyToTerminalIdToSocket st !! pk);
      injection Hstep as <- _; [|done].
    by apply (wf_UpdateTerminalInfo pk req).
  - destruct (mapPublicKeyToTerminalIdToSocket st !! pk);
      injection Hstep as <- _; [by apply wf_tick|done].
  - injection Hstep as <- _. unfold repeat.
    destruct (pings st !! pk) eqn:E; [|done]. case_decide; [|done].
    apply wf_set_pings; [| |done].
    + intros pk'. rewrite lookup_insert_is_Some. destruct (decide (pk = pk')); auto.
    + apply bounded_sweep, Hwf.
  - injection Hstep as <- _. apply wf_set_pings; [| |done].
    + intros pk'. by rewrite lookup_alter_is_Some.
    + apply bounded_delete, Hwf.
  - unfold ping_error in Hstep.
    destruct (at_key pk (pings st) !! target) as [soFar|]; [|by injection Hstep as <- _].
    destruct (soFar <? retry_count)%nat eqn:Hlt; injection Hstep as <- _.
    + apply wf_set_pings; [| |done].
      * intros pk'. by rewrite lookup_alter_is_Some.
      * apply bounded_retry; [by apply Nat.ltb_lt|apply Hwf].
    + apply (wf_set_pings _ (evict pk target st).1).
      * intros pk'. by rewrite lookup_alter_is_Some.
      * apply bounded_delete, Hwf.
      * by apply wf_evict.
Qed.

Lemma reachable_wf st : reachable st → wf st.
Proof.
  induction 1 as [|st ev st' effects _ IH Hstep]; [apply wf_initial|].
  by eapply wf_step.
Qed.

Lemma run_reachable evs st st' effects :
  reachable st → run evs st = inr (st', effects) → reachable st'.
Proof.
  revert st effects. induction evs as [|ev rest IH]; intros st effects Hst; simpl.
  - by intros [= <- _].
  - destruct (step ev st) as [e|[st1 e1]] eqn:E1; [done|].
    destruct (run rest st1) as [e|[st2 e2]] eqn:E2; [done|].
    intros [= <- _]. eapply IH; [|done]. by eapply reachable_step.
Qed.

(** ** Authentication *)


(** ** Forwarding *)

(** C10. The ['message'] subscription parses the frame with a
    [JSON.parse] that nothing guards: on a frame that is not valid JSON
    the handler throws a [SyntaxError] instead of dropping the frame, and
    the exception escapes the event loop. *)
Theorem forward_throws_on_invalid_json (ws : WebSocket) (pk tid data : string) (st : Hub) :
  subscriptions st !! ws = Some (pk, tid) →
  JSON_parse data = None →
  forward pk data st = Threw SyntaxError ∧
  forward pk data st ≠ Returned [] ∧
  step (Message ws data) st = inl SyntaxError ∧
  ∀ rest, run (Message ws data :: rest) st = inl SyntaxError.
Proof.
  intros Hws Hparse.
  assert (forward pk data st = Threw SyntaxError) as Hf
    by (unfold forward; by rewrite Hparse).
  assert (step (Message ws data) st = inl SyntaxError) as Hs
    by (simpl; by rewrite Hws, Hf).
  repeat split; [done|by rewrite Hf|done|].
  intros rest. cbn [run]. by rewrite Hs.
Qed.

(** C4, as the code has it. A frame that parses to a JSON value other
    than [null] never changes the state of the host. It is dropped, with
    nothing sent to anyone, when its [target_terminal_id] is not a key of
    the metadata of the tenant. When it is one, the bytes of the frame
    are sent as they came to the socket registered under the property key
    of the target, and the frame is dropped as well when the connection
    map holds nothing under that key and the key is no name of a member
    of [Object.prototype]. *)
Theorem forward_parsed (pk data : string) (msg : json) (target : jsval) (st : Hub) :
  JSON_parse data = Some msg →
  get_property "target_terminal_id" msg = inr target →
  ((∀ k, key_of target = Some k →
      at_key pk (mapPublicKeyToTerminalInfos st) !! k = None) →
   forward pk data st = Returned []) ∧
  (∀ k s, key_of target = Some k →
      is_Some (at_key pk (mapPublicKeyToTerminalInfos st) !! k) →
      at_key pk (mapPublicKeyToTerminalIdToSocket st) !! property_key k = Some s →
      forward pk data st = Returned [WsSend s data]) ∧
  (∀ k, key_of target = Some k →
      is_Some (at_key pk (mapPublicKeyToTerminalInfos st) !! k) →
      at_key pk (mapPublicKeyToTerminalIdToSocket st) !! property_key k = None →
      property_key k ∉ Object_prototype →
      forward pk data st = Returned []) ∧
  (∀ ws tid st' effects, subscriptions st !! ws = Some (pk, tid) →
      step (Message ws data) st = inr (st', effects) →
      st' = st ∧ forward pk data st = Returned effects).
Proof.
  intros Hparse Hget.
  split; [|split; [|split]].
  - intros Hnone. unfold forward, has. rewrite Hparse, Hget.
    destruct (key_of target) as [k|]; [|done].
    rewrite (Hnone k eq_refl). rewrite bool_decide_eq_false_2; [done|].
    by intros [? ?].
  - intros k s Hk Hinfo Hs. unfold forward, has, socket_of, get.
    rewrite Hparse, Hget, Hk, Hs. by rewrite bool_decide_eq_true_2.
  - intros k Hk Hinfo Hs Hname. unfold forward, has, socket_of, get.
    rewrite Hparse, Hget, Hk, Hs. rewrite bool_decide_eq_true_2 by done. simpl.
    by rewrite bool_decide_eq_false_2.
  - intros ws tid st' effects Hws. simpl. rewrite Hws.
    destruct (forward pk data st); [|done]. by intros [= <- <-].
Qed.

(** ** Cleaning up *)

Lemma evict_lookup pk k st :
  at_key pk (mapPublicKeyToTerminalIdToSocket (evict pk k st).1) !! property_key k = None ∧
  at_key pk (mapPublicKeyToTerminalInfos (evict pk k st).1) !! k = None.
Proof. simpl. by rewrite !at_key_alter_delete, !lookup_delete_eq. Qed.

Lemma evict_idempotent pk k st :
  evict pk k (evict pk k st).1 = ((evict pk k st).1, []).
Proof.
  unfold evict at 1. rewrite (proj1 (evict_lookup pk k st)). simpl.
  rewrite !alter_alter_eq.
  rewrite (alter_ext (delete k ∘ delete k) (delete k)),
    (alter_ext (delete (property_key k) ∘ delete (property_key k))
       (delete (property_key k))); [done|..];
    intros m _; simpl; apply delete_delete_eq.
Qed.

(** C8. The cleanup of the ['close'] event removes the socket entry and
    the metadata entry of the terminal together. Run a second time for
    the same terminal it returns normally, leaves the state exactly as
    the first run left it, and calls no socket: it only logs. *)
Theorem unregister_idempotent (pk tid : string) (st : Hub) :
  let st1 := (unregister pk tid st).1 in
  at_key pk (mapPublicKeyToTerminalIdToSocket st1) !! tid = None ∧
  at_key pk (mapPublicKeyToTerminalInfos st1) !! KString tid = None ∧
  unregister pk tid st1 = (st1, [ConsoleInfo (TerminalDisconnected pk tid)]) ∧
  (∀ ws, subscriptions st !! ws = Some (pk, tid) →
     run [Close ws; Close ws] st =
     inr (st1, (unregister pk tid st).2 ++ [ConsoleInfo (TerminalDisconnected pk tid)])).
Proof.
  assert ((unregister pk tid st).1 = (evict pk (KString tid) st).1) as E by done.
  assert (unregister pk tid (evict pk (KString tid) st).1 =
            ((evict pk (KString tid) st).1, [ConsoleInfo (TerminalDisconnected pk tid)]))
    as E2.
  { unfold unregister. by rewrite evict_idempotent. }
  cbv zeta. rewrite E. destruct (evict_lookup pk (KString tid) st) as [Hs Hi].
  repeat split; [done..|].
  intros ws Hws. cbn [run step]. rewrite Hws.
  rewrite (surjective_pairing (unregister pk tid st)).
  assert (subscriptions (unregister pk tid st).1 !! ws = Some (pk, tid)) as -> by done.
  rewrite E, E2. by rewrite app_nil_r.
Qed.

(** ** Replacing a socket *)

(** A second connection for a registered terminal id closes the socket
    that was registered and registers the new one. *)
Lemma handleUpgrade_supersedes pk tid st old :
  is_Some (mapPublicKeyToTerminalIdToSocket st !! pk) →
  at_key pk (mapPublicKeyToTerminalIdToSocket st) !! tid = Some old →
  handleUpgrade pk tid st =
    inr (register pk tid st,
         [ConsoleInfo (TerminalConnected pk tid);
          ConsoleInfo (TerminalReplaced pk tid); WsClose old]) ∧
  at_key pk (mapPublicKeyToTerminalIdToSocket (register pk tid st)) !! tid =
    Some (next_socket st) ∧
  subscriptions (register pk tid st) !! next_socket st = Some (pk, tid).
Proof.
  intros Hpk Hold. unfold handleUpgrade, get. rewrite Hold. simpl.
  by rewrite at_key_alter_eq, !lookup_insert_eq.
Qed.

(** The cleanup of the socket that was replaced then removes the new
    socket: it looks the terminal id up again and terminates what it
    finds. *)
Lemma unregister_after_replace pk tid st :
  is_Some (mapPublicKeyToTerminalIdToSocket st !! pk) →
  let st1 := register pk tid st in
  WsTerminate (next_socket st) ∈ (unregister pk tid st1).2 ∧
  at_key pk (mapPublicKeyToTerminalIdToSocket (unregister pk tid st1).1) !! tid = None ∧
  at_key pk (mapPublicKeyToTerminalInfos (unregister pk tid st1).1) !! KString tid = None.
Proof.
  intros Hpk. cbv zeta.
  assert (at_key pk (mapPublicKeyToTerminalIdToSocket (register pk tid st)) !! tid =
            Some (next_socket st)) as Hnew.
  { simpl. by rewrite at_key_alter_eq, lookup_insert_eq. }
  unfold unregister, evict. cbn [property_key]. rewrite Hnew. cbn [fst snd].
  split; [set_solver|].
  cbn [mapPublicKeyToTerminalIdToSocket mapPublicKeyToTerminalInfos].
  by rewrite !at_key_alter_delete, !lookup_delete_eq.
Qed.

(** ** The liveness monitor *)


Lemma run_app evs1 evs2 st :
  run (evs1 ++ evs2) st =
  match run evs1 st with
  | inl e => inl e
  | inr (st1, effects1) =>
      match run evs2 st1 with
      | inl e => inl e
      | inr (st2, effects2) => inr (st2, effects1 ++ effects2)
      end
  end.
Proof.
  revert st. induction evs1 as [|ev rest IH]; intros st; simpl.
  - by destruct (run evs2 st) as [|[? ?]].
  - destruct (step ev st) as [|[st1 e1]]; [done|]. rewrite IH.
    destruct (run rest st1) as [|[st2 e2]]; [done|].
    destruct (run evs2 st2) as [|[st3 e3]]; [done|]. by rewrite app_assoc.
Qed.

Lemma wf_run evs st st' effects :
  run evs st = inr (st', effects) → wf st → wf st'.
Proof.
  revert st effects. induction evs as [|ev rest IH]; intros st effects; simpl.
  - by intros [= <- _].
  - destruct (step ev st) as [e|[st1 e1]] eqn:E1; [done|].
    destruct (run rest st1) as [e|[st2 e2]] eqn:E2; [done|].
    intros [= <- _] Hwf. eapply IH; [done|]. by eapply wf_step.
Qed.

Lemma at_key_alter_insert `{Countable K} {V} (t : K) (k : string) (x y : V)
    (m : gmap string (gmap K V)) :
  at_key k m !! t = Some y →
  at_key k (alter (insert t x) k m) !! t = Some x.
Proof.
  intros Hy. rewrite at_key_alter_eq by (by eapply at_key_lookup_Some).
  apply lookup_insert_eq.
Qed.

(** Failed attempts that [retry] still absorbs only move the counter. *)
Lemma failures_absorbed k j pk target st :
  at_key pk (pings st) !! target = Some j →
  (j + k ≤ retry_count)%nat →
  ∃ st', run (failures k pk target) st = inr (st', []) ∧
         registry st' = registry st ∧
         at_key pk (pings st') !! target = Some (j + k)%nat.
Proof.
  revert j st. induction k as [|k IH]; intros j st Hj Hle.
  - exists st. by rewrite Nat.add_0_r.
  - cbn [failures replicate run step]. unfold ping_error. rewrite Hj.
    assert ((j <? retry_count)%nat = true) as -> by (apply Nat.ltb_lt; lia).
    set (st1 := set_pings _ st).
    destruct (IH (S j) st1) as (st' & Hrun & Hreg & Hcount); [|lia|].
    { subst st1. simpl. by eapply at_key_alter_insert. }
    exists st'. fold (failures k pk target). rewrite Hrun.
    split; [done|]. split; [by rewrite Hreg|]. rewrite Hcount. f_equal. lia.
Qed.

(** The failure that follows the last retry evicts the terminal. *)
Lemma failures_exhausted k j pk target st :
  at_key pk (pings st) !! target = Some j →
  (j ≤ retry_count)%nat →
  (j + k = S retry_count)%nat →
  ∃ st', run (failures k pk target) st = inr (st', (ping_failed pk target st).2) ∧
         registry st' = registry (evict pk target st).1 ∧
         at_key pk (pings st') !! target = None.
Proof.
  revert j st. induction k as [|k IH]; intros j st Hj Hbound Hle; [lia|].
  cbn [failures replicate run step]. unfold ping_error. rewrite Hj.
  destruct (decide (j < retry_count)%nat) as [Hlt|Hge].
  - assert ((j <? retry_count)%nat = true) as -> by (by apply Nat.ltb_lt).
    set (st1 := set_pings _ st).
    destruct (IH (S j) st1) as (st' & Hrun & Hreg & Hcount); [|lia|lia|].
    { subst st1. simpl. by eapply at_key_alter_insert. }
    exists st'. fold (failures k pk target). rewrite Hrun. done.
  - assert ((j <? retry_count)%nat = false) as -> by (apply Nat.ltb_ge; lia).
    assert (k = 0) as -> by lia. simpl. rewrite app_nil_r.
    eexists. split; [done|]. split; [done|]. simpl.
    by rewrite at_key_alter_delete, lookup_delete_eq.
Qed.

Lemma snapshot_spec pk st info :
  wf st →
  info ∈ snapshot pk st ↔
  at_key pk (mapPublicKeyToTerminalInfos st) !! terminal_id info = Some info.
Proof.
  intros Hwf. unfold snapshot. rewrite list_elem_of_fmap. split.
  - intros ([k v] & -> & Hin). apply elem_of_map_to_list in Hin. simpl.
    by rewrite (wf_info_key _ Hwf _ _ _ Hin).
  - intros Hin. exists (terminal_id info, info). split; [done|].
    by apply elem_of_map_to_list.
Qed.

Lemma registry_eq st1 st2 :
  registry st1 = registry st2 →
  mapPublicKeyToTerminalIdToSocket st1 = mapPublicKeyToTerminalIdToSocket st2 ∧
  mapPublicKeyToSignature st1 = mapPublicKeyToSignature st2 ∧
  mapPublicKeyToTerminalInfos st1 = mapPublicKeyToTerminalInfos st2 ∧
  subscriptions st1 = subscriptions st2 ∧
  next_socket st1 = next_socket st2 ∧
  listTerminalsMessage st1 = listTerminalsMessage st2.
Proof. unfold registry. by intros [= -> -> -> -> -> ->]. Qed.

(** C3, as the code has it. A probe subscribed by a sweep is declared
    failed, and the terminal evicted, on the fourth failed attempt in a
    row and not before: [retry(3)] gives three retries after the first
    attempt. Up to three failed attempts change nothing but the counter
    of the probe; a reply to any of the four attempts ends the probe with
    the registry as it was; after four failed attempts the terminal has
    no metadata and no socket entry, its socket has been terminated, and
    the [ListTerminals] value of the next tick has no entry for it. A
    failed attempt changes the registry only when three retries have
    been used up. *)
Theorem probe_evicts_on_fourth_failure (pk : string) (target : jskey) (st : Hub) :
  reachable st →
  is_Some (mapPublicKeyToTerminalIdToSocket st !! pk) →
  at_key pk (pings st) !! target = Some 0 →
  (∀ k, (k ≤ retry_count)%nat →
     ∃ st', run (failures k pk target) st = inr (st', []) ∧
            registry st' = registry st ∧
            at_key pk (pings st') !! target = Some k) ∧
  (∀ k, (k ≤ retry_count)%nat →
     ∃ st', run (failures k pk target ++ [PingOk pk target]) st = inr (st', []) ∧
            registry st' = registry st ∧
            at_key pk (pings st') !! target = None) ∧
  (∃ st' effects,
     run (failures 4 pk target ++ [Tick pk]) st = inr (st', effects) ∧
     at_key pk (mapPublicKeyToTerminalInfos st') !! target = None ∧
     at_key pk (mapPublicKeyToTerminalIdToSocket st') !! property_key target = None ∧
     (∀ s, at_key pk (mapPublicKeyToTerminalIdToSocket st) !! property_key target = Some s →
           WsTerminate s ∈ effects) ∧
     ListTerminals pk st' = Some (snapshot pk st') ∧
     (∀ info, info ∈ snapshot pk st' → terminal_id info ≠ target)) ∧
  (∀ s0 s1 effects,
     reachable s0 →
     step (PingError pk target) s0 = inr (s1, effects) →
     registry s1 ≠ registry s0 ∨ effects ≠ [] →
     at_key pk (pings s0) !! target = Some 3).
Proof.
  intros Hreach Hhost Hzero. apply reachable_wf in Hreach as Hwf. repeat split.
  - intros k Hk. by apply (failures_absorbed k 0).
  - intros k Hk.
    destruct (failures_absorbed k 0 pk target st) as (st1 & Hrun & Hreg & Hc); [done..|].
    exists (ping_ok pk target st1). rewrite run_app, Hrun. simpl.
    split; [done|]. split; [done|]. by rewrite at_key_alter_delete, lookup_delete_eq.
  - destruct (failures_exhausted 4 0 pk target st) as (st1 & Hrun & Hreg & Hc);
      [done|unfold retry_count; lia|done|].
    apply registry_eq in Hreg as (Hsock & Hsig & Hinfo & Hsub & Hnext & Hlist).
    simpl in Hsock, Hinfo.
    assert (is_Some (mapPublicKeyToTerminalIdToSocket st1 !! pk)) as [m Hm].
    { rewrite Hsock. by apply lookup_alter_is_Some. }
    assert (wf st1) as Hwf1 by (by eapply wf_run).
    exists (tick pk st1), ((ping_failed pk target st).2 ++ []).
    rewrite run_app, Hrun. cbn [run step]. rewrite Hm.
    assert (at_key pk (mapPublicKeyToTerminalInfos st1) !! target = None) as Hgone.
    { by rewrite Hinfo, at_key_alter_delete, lookup_delete_eq. }
    split; [done|]. split; [done|]. split.
    { simpl. by rewrite Hsock, at_key_alter_delete, lookup_delete_eq. }
    split.
    { intros s Hs. simpl. rewrite Hs, app_nil_r. set_solver. }
    split.
    { unfold ListTerminals. simpl. by rewrite lookup_insert_eq. }
    intros info Hin Heq. apply (snapshot_spec pk (tick pk st1)) in Hin;
      [|by apply wf_tick].
    simpl in Hin. rewrite Heq in Hin. congruence.
  - intros s0 s1 effects Hwf0 Hstep Hchange. apply reachable_wf in Hwf0.
    simpl in Hstep. unfold ping_error in Hstep.
    destruct (at_key pk (pings s0) !! target) as [soFar|] eqn:E.
    + destruct (soFar <? retry_count)%nat eqn:Hlt.
      * injection Hstep as <- <-. destruct Hchange; done.
      * apply Nat.ltb_ge in Hlt. apply (wf_counter _ Hwf0) in E.
        f_equal. unfold retry_count in *. lia.
    + injection Hstep as <- <-. destruct Hchange; done.
Qed.

(** ** Who receives a frame *)

Lemma forward_sends pk data st effects s d :
  forward pk data st = Returned effects →
  WsSend s d ∈ effects →
  d = data ∧ effects = [WsSend s data] ∧
  ∃ target k,
    (∃ msg, JSON_parse data = Some msg ∧
            get_property "target_terminal_id" msg = inr target) ∧
    key_of target = Some k ∧
    is_Some (at_key pk (mapPublicKeyToTerminalInfos st) !! k) ∧
    at_key pk (mapPublicKeyToTerminalIdToSocket st) !! property_key k = Some s.
Proof.
  unfold forward, has, socket_of, get.
  destruct (JSON_parse data) as [msg|]; [|done].
  destruct (get_property _ msg) as [|target] eqn:Hget; [done|].
  destruct (key_of target) as [k|] eqn:Hk; [|intros [= <-]; set_solver].
  case_bool_decide as Hinfo; simpl; [|intros [= <-]; set_solver].
  destruct (at_key pk (mapPublicKeyToTerminalIdToSocket st) !! property_key k)
    as [s'|] eqn:E.
  - intros [= <-] Hin. apply list_elem_of_singleton in Hin. injection Hin as -> ->.
    split; [done|]. split; [done|]. exists target, k. eauto 10.
  - case_bool_decide; [done|]. intros [= <-]. set_solver.
Qed.

(** The effects of a completed upgrade hold no [send]. *)
Lemma upgrade_effects req st st' effects :
  upgrade req st = inr (st', effects) →
  ∀ e, e ∈ effects →
    (∃ l, e = ConsoleInfo l) ∨ e = SocketWrite unauthorized ∨ e = SocketDestroy ∨
    (∃ pk sig admin, e = NewTerminal pk sig admin) ∨
    (∃ old, e = WsClose old ∧
       at_key (param (public_key req)) (mapPublicKeyToTerminalIdToSocket st)
         !! param (req_terminal_id req) = Some old).
Proof.
  intros Hup e Hin.
  assert (∀ pk sig, e ∈ host_terminal pk sig st →
            ∃ pk sig admin, e = NewTerminal pk sig admin) as Hhost.
  { intros pk sig. unfold host_terminal. destruct (_ !! _); set_solver. }
  apply upgrade_inr in Hup
    as [(r & _ & _ & ->)|[(_ & _ & _ & ->)|(_ & _ & e2 & Hup & ->)]].
  - set_solver.
  - right. right. right. left. by eapply Hhost.
  - apply elem_of_app in Hin as [Hin|Hin].
    { right. right. right. left. by eapply Hhost. }
    apply handleUpgrade_inr in Hup as (_ & -> & _).
    destruct (authenticated_maps (param (public_key req)) (param (signature req)) st)
      as (Hs & _).
    rewrite Hs, at_key_ensure in Hin.
    destruct (at_key _ _ !! _) as [old|] eqn:E; [|set_solver].
    apply elem_of_cons in Hin as [->|Hin]; [left; by eexists|].
    apply elem_of_cons in Hin as [->|Hin]; [left; by eexists|].
    apply list_elem_of_singleton in Hin as ->. right. right. right. right. by exists old.
Qed.

(** Only the ['message'] subscription sends on a socket. *)
Lemma step_sends ev st st' effects s d :
  step ev st = inr (st', effects) →
  WsSend s d ∈ effects →
  ∃ ws pk src k,
    ev = Message ws d ∧ subscriptions st !! ws = Some (pk, src) ∧
    is_Some (at_key pk (mapPublicKeyToTerminalInfos st) !! k) ∧
    at_key pk (mapPublicKeyToTerminalIdToSocket st) !! property_key k = Some s.
Proof.
  intros Hstep Hin. destruct ev; simpl in Hstep.
  - exfalso. destruct (upgrade_effects _ _ _ _ Hstep _ Hin)
      as [[? ?]|[?|[?|[(? & ? & ? & ?)|(? & ? & _)]]]]; done.
  - destruct (subscriptions st !! ws) as [[pk src]|] eqn:Hws;
      [|injection Hstep as _ <-; set_solver].
    destruct (forward pk data st) as [effs|] eqn:Hf; [|done].
    injection Hstep as _ <-.
    destruct (forward_sends _ _ _ _ _ _ Hf Hin) as (-> & _ & _ & k & _ & _ & ? & ?).
    by exists ws, pk, src, k.
  - exfalso. destruct (subscriptions st !! ws) as [[pk tid]|];
      injection Hstep as _ <-; [|set_solver].
    destruct (_ !! _) in Hin; set_solver.
  - exfalso. destruct (_ !! _) in Hstep; injection Hstep as _ <-; set_solver.
  - exfalso. destruct (_ !! _) in Hstep; injection Hstep as _ <-; set_solver.
  - exfalso. injection Hstep as _ <-. set_solver.
  - exfalso. injection Hstep as _ <-. set_solver.
  - exfalso. unfold ping_error in Hstep.
    destruct (at_key pk (pings st) !! target) as [soFar|];
      [|injection Hstep as _ <-; set_solver].
    destruct (soFar <? retry_count)%nat; injection Hstep as _ <-; [set_solver|].
    destruct (_ !! _) in Hin; set_solver.
Qed.

(** C9, as the code has it. A socket registered in the connection map of
    its tenant receives no frame as long as the metadata of the tenant
    holds no key that reads its terminal id as a property key: whatever
    event the host handles next, nothing is sent on that socket. Such a
    key is the terminal id itself, or another value that converts to it,
    as the number 5 does for the id ["5"]. *)
Theorem unlisted_socket_receives_nothing (st : Hub) (pk tid : string) (s : WebSocket) :
  reachable st →
  at_key pk (mapPublicKeyToTerminalIdToSocket st) !! tid = Some s →
  (∀ k, is_Some (at_key pk (mapPublicKeyToTerminalInfos st) !! k) →
        property_key k ≠ tid) →
  ∀ ev st' effects data, step ev st = inr (st', effects) → WsSend s data ∉ effects.
Proof.
  intros Hreach Hsock Hinfo ev st' effects data Hstep Hin.
  apply reachable_wf in Hreach as Hwf.
  destruct (step_sends _ _ _ _ _ _ Hstep Hin) as (ws & pk' & src & k & _ & _ & Hi & Hs).
  pose proof (wf_owner _ Hwf _ _ _ Hsock) as H1.
  pose proof (wf_owner _ Hwf _ _ _ Hs) as H2.
  rewrite H1 in H2. injection H2 as <- Heq. by apply (Hinfo k).
Qed.

(** ** Tenants *)

Lemma tenant_view_authenticated A B sig st :
  A ≠ B → tenant_view B (authenticated A sig st) = tenant_view B st.
Proof.
  intros Hne. unfold tenant_view, authenticated.
  destruct (mapPublicKeyToTerminalIdToSocket st !! A); simpl;
    by rewrite ?ensure_ne, ?lookup_insert_ne by done.
Qed.

Lemma tenant_view_register A B tid st :
  A ≠ B → tenant_view B (register A tid st) = tenant_view B st.
Proof. intros Hne. unfold tenant_view. simpl. by rewrite lookup_alter_ne. Qed.

Lemma tenant_view_evict A B tid st :
  A ≠ B → tenant_view B (evict A tid st).1 = tenant_view B st.
Proof. intros Hne. unfold tenant_view. simpl. by rewrite !lookup_alter_ne. Qed.

(** An event performed under one key leaves what belongs to another
    tenant as it was. *)
Lemma step_other_tenant A B ev st st' effects :
  A ≠ B → event_tenant ev st = Some A → step ev st = inr (st', effects) →
  tenant_view B st' = tenant_view B st.
Proof.
  intros Hne Hev Hstep. destruct ev; simpl in Hev, Hstep.
  - apply upgrade_inr in Hstep
      as [(r & _ & -> & _)|[(Hv & _ & -> & _)|(Hv & _ & e2 & Hup & _)]];
      [done|..]; rewrite Hv in Hev; injection Hev as Hpk; rewrite Hpk in *.
    + by apply tenant_view_authenticated.
    + apply handleUpgrade_inr in Hup as (-> & _).
      rewrite <- (tenant_view_authenticated A B (param (signature req)) st) by done.
      by apply tenant_view_register.
  - destruct (subscriptions st !! ws) as [[pk src]|]; [|by injection Hstep as <- _].
    destruct (forward pk data st); [|done]. by injection Hstep as <- _.
  - destruct (subscriptions st !! ws) as [[pk tid]|]; [|done].
    injection Hev as ->. injection Hstep as <- _.
    by apply (tenant_view_evict A B (KString tid)).
  - injection Hev as ->.
    destruct (_ !! _) in Hstep; injection Hstep as <- _; [|done].
    unfold tenant_view. simpl. by rewrite lookup_alter_ne.
  - injection Hev as ->.
    destruct (_ !! _) in Hstep; injection Hstep as <- _; [|done].
    unfold tenant_view. simpl. by rewrite lookup_insert_ne.
  - injection Hev as ->. injection Hstep as <- _. unfold repeat.
    destruct (pings st !! A); [|done]. case_decide; [|done].
    unfold tenant_view. simpl. by rewrite lookup_insert_ne.
  - injection Hev as ->. injection Hstep as <- _.
    unfold tenant_view. simpl. by rewrite lookup_alter_ne.
  - injection Hev as ->. unfold ping_error in Hstep.
    destruct (at_key A (pings st) !! target) as [soFar|];
      [|by injection Hstep as <- _].
    destruct (soFar <? retry_count)%nat; injection Hstep as <- _;
      unfold tenant_view; simpl; by rewrite !lookup_alter_ne.
Qed.

Lemma tenant_view_at_key A st1 st2 :
  tenant_view A st1 = tenant_view A st2 →
  at_key A (mapPublicKeyToTerminalIdToSocket st1) =
    at_key A (mapPublicKeyToTerminalIdToSocket st2) ∧
  at_key A (mapPublicKeyToTerminalInfos st1) =
    at_key A (mapPublicKeyToTerminalInfos st2) ∧
  listTerminalsMessage st1 !! A = listTerminalsMessage st2 !! A.
Proof. unfold tenant_view, at_key. by intros [= -> -> -> _]. Qed.

(** C5. Tenants are isolated. In a state the host can reach, for two
    distinct public keys [A] and [B]: what an event performed under [A]
    sends goes to sockets accepted under [A] only; a frame from a socket
    of [A] addressed to a terminal id that [A] does not have (it may well
    exist under [B]) is dropped with nothing sent, be it the metadata of
    [A] that has no such key or the connection map of [A] that reads
    nothing under it; an event performed
    under [A] leaves the sockets, the metadata, the replayed snapshot and
    the probes of [B] as they were; and what forwarding, [ListTerminals],
    the snapshot and the cleanup do under [A] is determined by the
    entries of [A] alone. *)
Theorem tenants_isolated (st : Hub) (A B : string) :
  reachable st → A ≠ B →
  (∀ ev st' effects s data,
     event_tenant ev st = Some A → step ev st = inr (st', effects) →
     WsSend s data ∈ effects →
     (∃ t, subscriptions st !! s = Some (A, t)) ∧
     (∀ t, at_key B (mapPublicKeyToTerminalIdToSocket st) !! t ≠ Some s)) ∧
  (∀ ws src data msg target k,
     subscriptions st !! ws = Some (A, src) →
     JSON_parse data = Some msg →
     get_property "target_terminal_id" msg = inr target →
     key_of target = Some k →
     at_key A (mapPublicKeyToTerminalInfos st) !! k = None ∨
     get (at_key A (mapPublicKeyToTerminalIdToSocket st)) (property_key k) = Absent →
     step (Message ws data) st = inr (st, [])) ∧
  (∀ ev st' effects,
     event_tenant ev st = Some A → step ev st = inr (st', effects) →
     tenant_view B st' = tenant_view B st) ∧
  (∀ st2,
     tenant_view A st2 = tenant_view A st →
     (∀ data, forward A data st2 = forward A data st) ∧
     ListTerminals A st2 = ListTerminals A st ∧
     snapshot A st2 = snapshot A st ∧
     (∀ tid, (unregister A tid st2).2 = (unregister A tid st).2)).
Proof.
  intros Hreach Hne. apply reachable_wf in Hreach as Hwf.
  split; [|split; [|split]].
  - intros ev st' effects s data Hev Hstep Hin.
    destruct (step_sends _ _ _ _ _ _ Hstep Hin)
      as (ws & pk & src & t & -> & Hws & _ & Hs).
    simpl in Hev. rewrite Hws in Hev. injection Hev as ->.
    pose proof (wf_owner _ Hwf _ _ _ Hs) as Hown. split; [by exists (property_key t)|].
    intros t' HB. apply (wf_owner _ Hwf) in HB. congruence.
  - intros ws src data msg target k Hws Hparse Hget Hk Hnone. simpl. rewrite Hws.
    unfold forward, has, socket_of. rewrite Hparse, Hget, Hk.
    case_bool_decide as Hinfo; simpl; [|done].
    destruct Hnone as [Hnone|Hnone]; rewrite Hnone in *; [by destruct Hinfo|done].
  - intros ev st' effects. by apply step_other_tenant.
  - intros st2 Hview.
    destruct (tenant_view_at_key _ _ _ Hview) as (Hsock & Hinfo & Hlist).
    repeat split.
    + intros data. unfold forward. by rewrite Hsock, Hinfo.
    + done.
    + unfold snapshot. by rewrite Hinfo.
    + intros tid. simpl. by rewrite Hsock.
Qed.

(** ** The signature of record *)

Lemma step_signature pk ev st st' effects :
  step ev st = inr (st', effects) →
  mapPublicKeyToSignature st' !! pk =
  match authenticates pk ev with
  | Some sig => Some sig
  | None => mapPublicKeyToSignature st !! pk
  end.
Proof.
  intros Hstep. destruct ev; simpl in *.
  - destruct (authenticated_maps (param (public_key req)) (param (signature req)) st)
      as (_ & _ & Hsig & _).
    apply upgrade_inr in Hstep
      as [(r & Hv & -> & _)|[(Hv & _ & -> & _)|(Hv & _ & e2 & Hup & _)]];
      rewrite Hv; [done|..].
    2: apply handleUpgrade_inr in Hup as (-> & _);
       cbn [register mapPublicKeyToSignature].
    all: rewrite Hsig.
    all: destruct (decide (param (public_key req) = pk)) as [<-|Hpk];
      [by rewrite lookup_insert_eq|by rewrite lookup_insert_ne].
  - destruct (subscriptions st !! ws) as [[? ?]|]; [|by injection Hstep as <- _].
    destruct (forward _ _ _); [|done]. by injection Hstep as <- _.
  - destruct (subscriptions st !! ws) as [[? ?]|]; by injection Hstep as <- _.
  - destruct (_ !! _) in Hstep; by injection Hstep as <- _.
  - destruct (_ !! _) in Hstep; by injection Hstep as <- _.
  - injection Hstep as <- _. unfold repeat. destruct (pings st !! _); [|done].
    by case_decide.
  - by injection Hstep as <- _.
  - unfold ping_error in Hstep. destruct (_ !! _) in Hstep; [|by injection Hstep as <- _].
    destruct (_ <? _)%nat in Hstep; by injection Hstep as <- _.
Qed.

(** C6, as the code has it. The signature kept for a public key is the
    one presented by the latest connection that authenticated under that
    key: every successful authentication overwrites it. [ListHost] on the
    host terminal of the admin key lists exactly that signature for the
    key. *)
Theorem signature_of_record_is_latest (pk : string) (evs : list event)
    (st st' : Hub) (effects : list effect) :
  run evs st = inr (st', effects) →
  mapPublicKeyToSignature st' !! pk =
    match last_authenticated pk evs with
    | Some sig => Some sig
    | None => mapPublicKeyToSignature st !! pk
    end ∧
  ∀ l, ListHost ADMIN_public_key st' = Some l →
       ∀ sig, (pk, sig) ∈ l ↔ mapPublicKeyToSignature st' !! pk = Some sig.
Proof.
  intros Hrun. split.
  - revert st effects Hrun. induction evs as [|ev rest IH]; intros st effects; simpl.
    + by intros [= <- _].
    + destruct (step ev st) as [|[st1 e1]] eqn:E1; [done|].
      destruct (run rest st1) as [|[st2 e2]] eqn:E2; [done|].
      intros [= <- _]. rewrite (IH _ _ E2).
      destruct (last_authenticated pk rest); [done|]. by eapply step_signature.
  - intros l Hl sig. unfold ListHost in Hl.
    destruct (_ !! _) in Hl; [|done]. case_bool_decide; [|done].
    injection Hl as <-. apply elem_of_map_to_list.
Qed.

End Properties.

(** * Further properties of the host *)

Section Further.

Context `{platform : Platform}.

(** ** Accepting a connection *)

Lemma validateAuth_inr req :
  validateAuth req = inr tt ↔
  missing (public_key req) = false ∧ missing (req_terminal_id req) = false ∧
  missing (signature req) = false ∧
  verifyMessage "" (param (signature req)) (param (public_key req)) = true.
Proof.
  unfold validateAuth.
  destruct (missing (public_key req)); [naive_solver|].
  destruct (missing (req_terminal_id req)); [naive_solver|].
  destruct (missing (signature req)); [naive_solver|].
  destruct (verifyMessage _ _ _); naive_solver.
Qed.

Lemma handleUpgrade_accepts pk tid st :
  tid ∉ Object_prototype →
  handleUpgrade pk tid st =
    inr (register pk tid st,
         ConsoleInfo (TerminalConnected pk tid) ::
         match at_key pk (mapPublicKeyToTerminalIdToSocket st) !! tid with
         | Some old => [ConsoleInfo (TerminalReplaced pk tid); WsClose old]
         | None => []
         end).
Proof.
  intros Hname. unfold handleUpgrade, get. destruct (_ !! tid); [done|].
  by rewrite bool_decide_eq_false_2.
Qed.

Lemma handleUpgrade_throws pk sig tid st :
  wf st → tid ∈ Object_prototype →
  handleUpgrade pk tid (authenticated pk sig st) = inl TypeError.
Proof.
  intros Hwf Hname. apply handleUpgrade_inl. split; [done|]. split; [done|].
  destruct (authenticated_maps pk sig st) as (Hsock & _).
  rewrite Hsock, at_key_ensure.
  destruct (at_key pk (mapPublicKeyToTerminalIdToSocket st) !! tid) as [old|] eqn:E;
    [|done].
  exfalso. eapply wf_names; [done| |done]. by eapply wf_owner.
Qed.

(** An authenticated upgrade whose handshake completes, for a terminal
    id that is no name of a member of [Object.prototype], records the
    signature, creates socket number [next_socket] and registers it under
    the public key and terminal id of the request with its two
    subscriptions. It closes the socket that was registered under that
    id, and no other; the other ids of the tenant, the other tenants and
    all metadata are as before. For a terminal id that is such a name
    the handler throws a [TypeError] in every state the host can reach,
    and nothing is registered. *)
Theorem upgrade_accepts (req : request) (st : Hub) :
  missing (public_key req) = false →
  missing (req_terminal_id req) = false →
  missing (signature req) = false →
  verifyMessage "" (param (signature req)) (param (public_key req)) = true →
  handshake req = true →
  let pk := param (public_key req) in
  let tid := param (req_terminal_id req) in
  (tid ∉ Object_prototype →
   ∃ st' effects,
     upgrade req st = inr (st', effects) ∧
     at_key pk (mapPublicKeyToTerminalIdToSocket st') !! tid = Some (next_socket st) ∧
     subscriptions st' !! next_socket st = Some (pk, tid) ∧
     next_socket st' = S (next_socket st) ∧
     mapPublicKeyToSignature st' !! pk = Some (param (signature req)) ∧
     (∀ s, WsClose s ∈ effects ↔
           at_key pk (mapPublicKeyToTerminalIdToSocket st) !! tid = Some s) ∧
     (∀ s, WsTerminate s ∉ effects) ∧
     (∀ pk' t, (pk', t) ≠ (pk, tid) →
        at_key pk' (mapPublicKeyToTerminalIdToSocket st') !! t =
        at_key pk' (mapPublicKeyToTerminalIdToSocket st) !! t) ∧
     (∀ pk', at_key pk' (mapPublicKeyToTerminalInfos st') =
             at_key pk' (mapPublicKeyToTerminalInfos st))) ∧
  (reachable st → tid ∈ Object_prototype → upgrade req st = inl TypeError).
Proof.
  intros H1 H2 H3 H4 Hhs. cbv zeta. unfold upgrade.
  assert (validateAuth req = inr tt) as -> by (by apply validateAuth_inr).
  rewrite Hhs. set (pk := param (public_key req)). set (tid := param (req_terminal_id req)).
  set (sig := param (signature req)).
  set (st1 := authenticated pk sig st).
  assert (is_Some (mapPublicKeyToTerminalIdToSocket st1 !! pk)) as Hpk
    by apply authenticated_tenant.
  destruct (authenticated_maps pk sig st) as (Hsock & Hinfo & Hsig & Hsub & Hnext & _).
  fold st1 in Hsock, Hinfo, Hsig, Hsub, Hnext.
  assert (∀ k, at_key k (mapPublicKeyToTerminalIdToSocket st1) =
               at_key k (mapPublicKeyToTerminalIdToSocket st)) as Hat.
  { intros k. by rewrite Hsock, at_key_ensure. }
  split.
  - intros Hname. rewrite handleUpgrade_accepts by done. rewrite Hat.
    eexists _, _. split; [done|].
    cbn [register mapPublicKeyToTerminalIdToSocket subscriptions next_socket
         mapPublicKeyToSignature mapPublicKeyToTerminalInfos].
    rewrite Hnext, Hsig, Hinfo, Hsub. rewrite at_key_alter_eq by done. rewrite !Hat.
    split; [apply lookup_insert_eq|]. split; [apply lookup_insert_eq|].
    split; [done|]. split; [apply lookup_insert_eq|].
    split; [|split; [|split]].
    + intros s. unfold host_terminal.
      destruct (mapPublicKeyToTerminalIdToSocket st !! pk);
        destruct (at_key pk (mapPublicKeyToTerminalIdToSocket st) !! tid) as [old|];
        set_solver.
    + intros s. unfold host_terminal.
      destruct (mapPublicKeyToTerminalIdToSocket st !! pk);
        destruct (at_key pk (mapPublicKeyToTerminalIdToSocket st) !! tid) as [old|];
        set_solver.
    + intros pk' t Hne. destruct (decide (pk = pk')) as [<-|Hpk'].
      * rewrite at_key_alter_eq by done. rewrite lookup_insert_ne by congruence.
        by rewrite Hat.
      * rewrite at_key_alter_ne by done. by rewrite Hat.
    + intros pk'. apply at_key_ensure.
  - intros Hreach Hname. apply reachable_wf in Hreach as Hwf.
    assert (handleUpgrade pk tid st1 = inl TypeError) as ->; [|done].
    apply handleUpgrade_inl. split; [done|]. split; [done|]. rewrite Hat.
    destruct (at_key pk (mapPublicKeyToTerminalIdToSocket st) !! tid) as [old|] eqn:E;
      [|done].
    exfalso. eapply wf_names; [done| |done]. by eapply wf_owner.
Qed.

(** ** Tenants are created by authentication only, and stay *)

Lemma is_Some_authenticates pk ev :
  is_Some (authenticates pk ev) ↔
  ∃ req, ev = Upgrade req ∧ validateAuth req = inr tt ∧ param (public_key req) = pk.
Proof.
  destruct ev; simpl; try (split; [by intros [? ?]|by intros (? & ? & _)]).
  destruct (validateAuth req) as [|[]] eqn:E.
  - split; [by intros [? ?]|]. intros (? & [= <-] & ? & _). congruence.
  - case_decide as Hpk.
    + split; [by exists req|by eexists].
    + split; [by intros [? ?]|]. by intros (? & [= <-] & _ & ?).
Qed.

(** How a step changes the set of tenants: the three maps gain the key
    of an authenticated upgrade, and nothing else changes their keys. *)
Lemma step_domains ev st st' effects pk :
  step ev st = inr (st', effects) →
  (is_Some (mapPublicKeyToTerminalIdToSocket st' !! pk) ↔
   is_Some (mapPublicKeyToTerminalIdToSocket st !! pk) ∨ is_Some (authenticates pk ev)) ∧
  (is_Some (mapPublicKeyToTerminalInfos st' !! pk) ↔
   is_Some (mapPublicKeyToTerminalInfos st !! pk) ∨ is_Some (authenticates pk ev)) ∧
  (is_Some (mapPublicKeyToSignature st' !! pk) ↔
   is_Some (mapPublicKeyToSignature st !! pk) ∨ is_Some (authenticates pk ev)).
Proof.
  intros Hstep.
  assert (∀ P : Prop, P ↔ P ∨ is_Some (@None string)) as Hnone.
  { intros P. split; [by left|]. by intros [?|[? ?]]. }
  destruct ev; simpl in Hstep; simpl authenticates.
  - destruct (authenticated_maps (param (public_key req)) (param (signature req)) st)
      as (Hs & Hi & Hg & _).
    assert (∀ P : Prop,
              (param (public_key req) = pk ∨ P) ↔
              P ∨ is_Some (if decide (param (public_key req) = pk)
                           then Some (param (signature req)) else None)) as Hsome.
    { intros P. destruct (decide (param (public_key req) = pk)) as [Hpk|Hpk].
      - split; [intros _; right; eexists; reflexivity|intros _; by left].
      - split; [intros [?|?]; [done|by left]|intros [?|[? ?]]; [by right|done]]. }
    apply upgrade_inr in Hstep
      as [(r & Hv & -> & _)|[(Hv & _ & -> & _)|(Hv & _ & e2 & Hup & _)]];
      rewrite Hv; [by (split; [|split]; apply Hnone)|..].
    2: apply handleUpgrade_inr in Hup as (-> & _);
       cbn [register mapPublicKeyToTerminalIdToSocket mapPublicKeyToTerminalInfos
            mapPublicKeyToSignature].
    all: rewrite ?lookup_alter_is_Some, Hs, Hi, Hg, !ensure_is_Some,
           lookup_insert_is_Some'.
    all: by (split; [|split]; apply Hsome).
  - destruct (subscriptions st !! ws) as [[? ?]|];
      [|injection Hstep as <- _; by (split; [|split]; apply Hnone)].
    destruct (forward _ _ _); [|done]. injection Hstep as <- _.
    by (split; [|split]; apply Hnone).
  - destruct (subscriptions st !! ws) as [[? ?]|]; injection Hstep as <- _; simpl;
      rewrite ?lookup_alter_is_Some; by (split; [|split]; apply Hnone).
  - destruct (_ !! _) in Hstep; injection Hstep as <- _; simpl;
      rewrite ?lookup_alter_is_Some; by (split; [|split]; apply Hnone).
  - destruct (_ !! _) in Hstep; injection Hstep as <- _; simpl;
      by (split; [|split]; apply Hnone).
  - injection Hstep as <- _. unfold repeat.
    destruct (pings st !! _); [|by (split; [|split]; apply Hnone)].
    case_decide; simpl; by (split; [|split]; apply Hnone).
  - injection Hstep as <- _. simpl. by (split; [|split]; apply Hnone).
  - unfold ping_error in Hstep.
    destruct (_ !! _) in Hstep; [|injection Hstep as <- _; by (split; [|split]; apply Hnone)].
    destruct (_ <? _)%nat in Hstep; injection Hstep as <- _; simpl;
      rewrite ?lookup_alter_is_Some; by (split; [|split]; apply Hnone).
Qed.

Lemma is_Some_first_authenticated pk ev rest :
  is_Some (first_authenticated pk (ev :: rest)) ↔
  is_Some (authenticates pk ev) ∨ is_Some (first_authenticated pk rest).
Proof.
  simpl. destruct (authenticates pk ev); [|split; [by right|by intros [[? ?]|?]]].
  split; [by left|by eexists].
Qed.

(** Over a run, a public key has its connection map, its metadata map
    and its signature exactly when it had them before or a connection
    authenticated under it during the run: authentication is the only way
    a tenant comes to exist, and no event removes a tenant. *)
Theorem tenants_created_by_authentication (pk : string) (evs : list event)
    (st st' : Hub) (effects : list effect) :
  run evs st = inr (st', effects) →
  (is_Some (mapPublicKeyToTerminalIdToSocket st' !! pk) ↔
   is_Some (mapPublicKeyToTerminalIdToSocket st !! pk) ∨
   is_Some (first_authenticated pk evs)) ∧
  (is_Some (mapPublicKeyToTerminalInfos st' !! pk) ↔
   is_Some (mapPublicKeyToTerminalInfos st !! pk) ∨
   is_Some (first_authenticated pk evs)) ∧
  (is_Some (mapPublicKeyToSignature st' !! pk) ↔
   is_Some (mapPublicKeyToSignature st !! pk) ∨
   is_Some (first_authenticated pk evs)).
Proof.
  revert st effects. induction evs as [|ev rest IH]; intros st effects; cbn [run].
  - intros [= <- _]. simpl.
    repeat split; try (by left); by intros [?|[? ?]].
  - destruct (step ev st) as [|[st1 e1]] eqn:E1; [done|].
    destruct (run rest st1) as [|[st2 e2]] eqn:E2; [done|].
    intros [= <- _]. destruct (IH _ _ E2) as (H1 & H2 & H3).
    destruct (step_domains _ _ _ _ pk E1) as (G1 & G2 & G3).
    rewrite H1, H2, H3, G1, G2, G3, is_Some_first_authenticated.
    repeat split; tauto.
Qed.

(** ** The maps of a tenant exist together *)

Lemma step_aligned ev st st' effects :
  step ev st = inr (st', effects) → aligned st → aligned st'.
Proof.
  intros Hstep Hal pk.
  destruct (step_domains _ _ _ _ pk Hstep) as (G1 & G2 & G3).
  destruct (Hal pk) as (A1 & A2 & A3 & A4).
  split; [rewrite G1, G2; tauto|]. split; [rewrite G1, G3; tauto|].
  rewrite G1. clear G2 G3.
  destruct ev; simpl in Hstep.
  - destruct (authenticated_maps (param (public_key req)) (param (signature req)) st)
      as (_ & _ & _ & _ & _ & Hl & Hp).
    apply upgrade_inr in Hstep
      as [(r & Hv & -> & _)|[(Hv & _ & -> & _)|(Hv & _ & e2 & Hup & _)]];
      [simpl; tauto|..].
    2: apply handleUpgrade_inr in Hup as (-> & _); cbn [register pings listTerminalsMessage].
    all: assert (is_Some (pings (authenticated (param (public_key req))
                              (param (signature req)) st) !! pk) →
            is_Some (mapPublicKeyToTerminalIdToSocket st !! pk) ∨
            is_Some (authenticates pk (Upgrade req))) as Hpings.
    1, 3: rewrite Hp; simpl; rewrite Hv;
      (destruct (mapPublicKeyToTerminalIdToSocket st !! param (public_key req));
        [tauto|]);
      rewrite lookup_insert_is_Some'; (intros [->|?]; [|tauto]);
      right; rewrite decide_True by done; by eexists.
    all: rewrite Hl; tauto.
  - destruct (subscriptions st !! ws) as [[? ?]|]; [|injection Hstep as <- _; tauto].
    destruct (forward _ _ _); [|done]. injection Hstep as <- _. tauto.
  - destruct (subscriptions st !! ws) as [[? ?]|]; injection Hstep as <- _; simpl; tauto.
  - destruct (_ !! _) in Hstep; injection Hstep as <- _; simpl; tauto.
  - destruct (mapPublicKeyToTerminalIdToSocket st !! pk0) eqn:E;
      injection Hstep as <- _; simpl; [|tauto].
    split; [tauto|]. rewrite lookup_insert_is_Some'. intros [->|?]; [|tauto].
    left. by rewrite E.
  - injection Hstep as <- _. unfold repeat. destruct (pings st !! pk0) eqn:E; [|tauto].
    case_decide; simpl; [|tauto]. split; [|tauto].
    rewrite lookup_insert_is_Some'. intros [->|?]; [|tauto].
    left. apply A3. by rewrite E.
  - injection Hstep as <- _. simpl. rewrite lookup_alter_is_Some. tauto.
  - unfold ping_error in Hstep.
    destruct (_ !! _) in Hstep; [|injection Hstep as <- _; tauto].
    destruct (_ <? _)%nat in Hstep; injection Hstep as <- _; simpl;
      rewrite lookup_alter_is_Some; tauto.
Qed.

Lemma reachable_aligned st : reachable st → aligned st.
Proof.
  induction 1 as [|st ev st' effects _ IH Hstep].
  - intros pk. simpl. rewrite !lookup_empty. repeat split; by intros [? ?].
  - by eapply step_aligned.
Qed.

(** In every state the host can reach, a public key has a connection
    map exactly when it has a metadata map, a recorded signature and a
    probe pipeline; a [ListTerminals] value is replayed only for such a
    key. *)
Theorem tenant_maps_exist_together (st : Hub) (pk : string) :
  reachable st →
  (is_Some (mapPublicKeyToTerminalIdToSocket st !! pk) ↔
   is_Some (mapPublicKeyToTerminalInfos st !! pk)) ∧
  (is_Some (mapPublicKeyToTerminalIdToSocket st !! pk) ↔
   is_Some (mapPublicKeyToSignature st !! pk)) ∧
  (is_Some (mapPublicKeyToTerminalIdToSocket st !! pk) ↔
   is_Some (pings st !! pk)) ∧
  (is_Some (listTerminalsMessage st !! pk) →
   is_Some (mapPublicKeyToTerminalIdToSocket st !! pk)).
Proof.
  intros Hreach. destruct (reachable_aligned _ Hreach pk) as (A1 & A2 & A3 & A4).
  apply reachable_wf in Hreach as Hwf.
  pose proof (wf_tenant _ Hwf pk) as Ht. repeat split; tauto.
Qed.

(** ** Sockets *)

(** In every state the host can reach, a socket is registered under at
    most one public key and terminal id, it is a socket the host has
    created, and its subscriptions are the ones of that key and id. *)
Theorem registry_injective (st : Hub) (pk1 pk2 t1 t2 : string) (s : WebSocket) :
  reachable st →
  at_key pk1 (mapPublicKeyToTerminalIdToSocket st) !! t1 = Some s →
  at_key pk2 (mapPublicKeyToTerminalIdToSocket st) !! t2 = Some s →
  pk1 = pk2 ∧ t1 = t2 ∧ (s < next_socket st)%nat ∧
  subscriptions st !! s = Some (pk1, t1).
Proof.
  intros Hreach H1 H2. apply reachable_wf in Hreach as Hwf.
  pose proof (wf_owner _ Hwf _ _ _ H1) as O1.
  pose proof (wf_owner _ Hwf _ _ _ H2) as O2.
  rewrite O1 in O2. injection O2 as <- <-.
  repeat split; [|done]. by eapply wf_allocated.
Qed.

(** ** The host terminal *)

Lemma hosts_created_app pk e1 e2 :
  hosts_created pk (e1 ++ e2) = (hosts_created pk e1 + hosts_created pk e2)%nat.
Proof. unfold hosts_created. by rewrite List.filter_app, length_app. Qed.

Lemma creates_host_elem pk effects :
  hosts_created pk effects = 0%nat →
  ∀ sig admin, NewTerminal pk sig admin ∉ effects.
Proof.
  unfold hosts_created. induction effects as [|e rest IH]; intros Hz sig admin Hin.
  - by apply elem_of_nil in Hin.
  - simpl in Hz. apply elem_of_cons in Hin as [<-|Hin].
    + simpl in Hz. by rewrite bool_decide_eq_true_2 in Hz.
    + destruct (creates_host pk e); [done|]. by eapply IH.
Qed.

Lemma host_terminal_created pk pk0 sig0 st rest :
  hosts_created pk rest = 0%nat →
  (∀ sig admin, NewTerminal pk sig admin ∉ rest) →
  hosts_created pk (host_terminal pk0 sig0 st ++ rest) =
    match mapPublicKeyToTerminalIdToSocket st !! pk,
          (if decide (pk0 = pk) then Some sig0 else None) with
    | None, Some _ => 1%nat
    | _, _ => 0%nat
    end ∧
  ∀ sig admin, NewTerminal pk sig admin ∈ host_terminal pk0 sig0 st ++ rest →
    mapPublicKeyToTerminalIdToSocket st !! pk = None ∧
    (if decide (pk0 = pk) then Some sig0 else None) = Some sig ∧
    admin = bool_decide (pk = ADMIN_public_key).
Proof.
  intros Hz Hnot. unfold host_terminal. rewrite hosts_created_app, Hz, Nat.add_0_r.
  destruct (decide (pk0 = pk)) as [->|Hne].
  - destruct (mapPublicKeyToTerminalIdToSocket st !! pk) eqn:E.
    + split; [done|]. intros sig admin Hin. simpl in Hin. by apply Hnot in Hin.
    + split; [unfold hosts_created; simpl; by rewrite bool_decide_eq_true_2|].
      intros sig admin Hin. apply elem_of_app in Hin as [Hin|Hin];
        [|by apply Hnot in Hin].
      apply list_elem_of_singleton in Hin. by injection Hin as -> ->.
  - assert (hosts_created pk
              match mapPublicKeyToTerminalIdToSocket st !! pk0 with
              | None => [NewTerminal pk0 sig0 (bool_decide (pk0 = ADMIN_public_key))]
              | Some _ => []
              end = 0%nat) as Hz0.
    { destruct (_ !! pk0); [done|]. unfold hosts_created. simpl.
      by rewrite bool_decide_eq_false_2. }
    rewrite Hz0. split; [by destruct (_ !! pk)|].
    intros sig admin Hin. apply elem_of_app in Hin as [Hin|Hin];
      [by apply (creates_host_elem _ _ Hz0) in Hin|by apply Hnot in Hin].
Qed.

(** What one step creates: a host terminal for [pk] exactly when a
    connection authenticates under [pk] and [pk] has no connection map
    yet; it is given the signature of that connection. *)
Lemma step_creates_host pk ev st st' effects :
  step ev st = inr (st', effects) →
  hosts_created pk effects =
    match mapPublicKeyToTerminalIdToSocket st !! pk, authenticates pk ev with
    | None, Some _ => 1%nat
    | _, _ => 0%nat
    end ∧
  ∀ sig admin, NewTerminal pk sig admin ∈ effects →
    mapPublicKeyToTerminalIdToSocket st !! pk = None ∧
    authenticates pk ev = Some sig ∧
    admin = bool_decide (pk = ADMIN_public_key).
Proof.
  intros Hstep.
  assert (∀ effs, hosts_created pk effs = 0%nat →
            hosts_created pk effs =
              match mapPublicKeyToTerminalIdToSocket st !! pk, @None string with
              | None, Some _ => 1%nat
              | _, _ => 0%nat
              end ∧
            ∀ sig admin, NewTerminal pk sig admin ∈ effs →
              mapPublicKeyToTerminalIdToSocket st !! pk = None ∧
              @None string = Some sig ∧
              admin = bool_decide (pk = ADMIN_public_key)) as Hnone.
  { intros effs Hz. split; [by destruct (_ !! _)|].
    intros sig admin Hin. by apply (creates_host_elem _ _ Hz) in Hin. }
  destruct ev; simpl in Hstep; simpl authenticates.
  - apply upgrade_inr in Hstep
      as [(r & Hv & _ & ->)|[(Hv & _ & _ & ->)|(Hv & _ & e2 & Hup & ->)]];
      rewrite Hv; [by apply Hnone|..].
    + rewrite <- (app_nil_r (host_terminal _ _ _)).
      apply host_terminal_created; [done|]. intros sig admin. set_solver.
    + apply handleUpgrade_inr in Hup as (_ & -> & _). apply host_terminal_created.
      * by destruct (at_key _ _ !! _).
      * intros sig admin. destruct (at_key _ _ !! _); set_solver.
  - destruct (subscriptions st !! ws) as [[pk' src]|];
      [|injection Hstep as _ <-; by apply Hnone].
    destruct (forward pk' data st) as [effs|] eqn:Hf; [|done].
    injection Hstep as _ <-. apply Hnone. unfold forward in Hf.
    destruct (JSON_parse data); [|done]. destruct (get_property _ _); [done|].
    destruct (negb _); [by injection Hf as <-|].
    destruct (socket_of _ _); [|done|]; by injection Hf as <-.
  - destruct (subscriptions st !! ws) as [[pk' tid]|];
      injection Hstep as _ <-; apply Hnone; [|done].
    by destruct (at_key _ _ !! _).
  - destruct (_ !! _) in Hstep; injection Hstep as _ <-; by apply Hnone.
  - destruct (_ !! _) in Hstep; injection Hstep as _ <-; by apply Hnone.
  - injection Hstep as _ <-. by apply Hnone.
  - injection Hstep as _ <-. by apply Hnone.
  - unfold ping_error in Hstep.
    destruct (at_key pk0 (pings st) !! target) as [soFar|];
      [|injection Hstep as _ <-; by apply Hnone].
    destruct (soFar <? retry_count)%nat; injection Hstep as _ <-; apply Hnone; [done|].
    by destruct (at_key _ _ !! _).
Qed.

(** Over a run, at most one host terminal is created for a public key:
    none when the key already has its connection map, and otherwise one
    exactly when a connection authenticates under the key. The host
    terminal connects with the signature of the first connection that
    authenticated under the key, and it is the admin terminal exactly
    when the key is the admin key. *)
Theorem host_created_once (pk : string) (evs : list event) (st st' : Hub)
    (effects : list effect) :
  run evs st = inr (st', effects) →
  hosts_created pk effects =
    match mapPublicKeyToTerminalIdToSocket st !! pk, first_authenticated pk evs with
    | None, Some _ => 1%nat
    | _, _ => 0%nat
    end ∧
  ∀ sig admin, NewTerminal pk sig admin ∈ effects →
    mapPublicKeyToTerminalIdToSocket st !! pk = None ∧
    first_authenticated pk evs = Some sig ∧
    admin = bool_decide (pk = ADMIN_public_key).
Proof.
  revert st effects. induction evs as [|ev rest IH]; intros st effects; cbn [run].
  - intros [= <- <-]. split; [by destruct (_ !! _)|]. intros sig admin Hin.
    by apply elem_of_nil in Hin.
  - destruct (step ev st) as [|[st1 e1]] eqn:E1; [done|].
    destruct (run rest st1) as [|[st2 e2]] eqn:E2; [done|].
    intros [= <- <-].
    destruct (step_creates_host pk _ _ _ _ E1) as [Hc1 Hn1].
    destruct (IH _ _ E2) as [Hc2 Hn2].
    destruct (step_domains _ _ _ _ pk E1) as (Hdom & _).
    rewrite hosts_created_app, Hc1, Hc2. cbn [first_authenticated].
    destruct (mapPublicKeyToTerminalIdToSocket st !! pk) as [m|] eqn:Hst.
    + assert (is_Some (mapPublicKeyToTerminalIdToSocket st1 !! pk)) as [m1 Hm1]
        by (apply Hdom; left; by eexists).
      rewrite Hm1. split; [done|]. intros sig admin Hin.
      apply elem_of_app in Hin as [Hin|Hin].
      * apply Hn1 in Hin as (? & _). congruence.
      * apply Hn2 in Hin as (? & _). congruence.
    + destruct (authenticates pk ev) as [sig0|] eqn:Hauth.
      * assert (is_Some (mapPublicKeyToTerminalIdToSocket st1 !! pk)) as [m1 Hm1]
          by (apply Hdom; right; by eexists).
        rewrite Hm1. split; [done|]. intros sig admin Hin.
        apply elem_of_app in Hin as [Hin|Hin].
        -- apply Hn1 in Hin as (_ & ? & ?). by split.
        -- apply Hn2 in Hin as (? & _). congruence.
      * assert (mapPublicKeyToTerminalIdToSocket st1 !! pk = None) as Hm1.
        { apply eq_None_not_Some. rewrite Hdom. intros [[? ?]|[? ?]]; done. }
        rewrite Hm1. split; [done|]. intros sig admin Hin.
        apply elem_of_app in Hin as [Hin|Hin].
        -- apply Hn1 in Hin as (_ & ? & _). done.
        -- apply Hn2 in Hin as (_ & ? & ?). by split.
Qed.

(** ** Discovery *)

Lemma snapshot_ids pk st :
  wf st →
  terminal_id <$> snapshot pk st =
  (map_to_list (at_key pk (mapPublicKeyToTerminalInfos st))).*1.
Proof.
  intros Hwf. unfold snapshot. rewrite <- list_fmap_compose.
  apply list_fmap_ext. intros i [k v] Hi. simpl.
  apply list_elem_of_lookup_2, elem_of_map_to_list in Hi.
  by apply (wf_info_key _ Hwf pk).
Qed.

Lemma snapshot_NoDup pk st : wf st → NoDup (terminal_id <$> snapshot pk st).
Proof. intros Hwf. rewrite snapshot_ids by done. apply NoDup_fst_map_to_list. Qed.

(** A terminal that reports its metadata is listed: after a call of
    [UpdateTerminalInfo] under a key that has its host terminal, the
    metadata is pushed on the terminal-info stream, and the
    [ListTerminals] value of the next tick holds the reported metadata,
    holds nothing else under that terminal id, and holds every entry of
    the other terminal ids as it was. *)
Theorem update_then_list (pk : string) (req : ITerminalInfo) (st : Hub) :
  reachable st →
  is_Some (mapPublicKeyToTerminalIdToSocket st !! pk) →
  ∃ st' l,
    run [CallUpdateTerminalInfo pk req; Tick pk] st =
      inr (st', [TerminalInfoNext pk req]) ∧
    ListTerminals pk st' = Some l ∧
    NoDup (terminal_id <$> l) ∧
    ∀ info, info ∈ l ↔
      info = req ∨ (terminal_id info ≠ terminal_id req ∧ info ∈ snapshot pk st).
Proof.
  intros Hreach [m Hm]. apply reachable_wf in Hreach as Hwf.
  set (st1 := (UpdateTerminalInfo pk req st).1).
  assert (wf st1) as Hwf1 by (by apply wf_UpdateTerminalInfo).
  exists (tick pk st1), (snapshot pk st1).
  cbn [run step]. rewrite Hm.
  rewrite (surjective_pairing (UpdateTerminalInfo pk req st)). fold st1.
  assert (mapPublicKeyToTerminalIdToSocket st1 !! pk = Some m) as -> by done.
  split; [done|]. split; [unfold ListTerminals; simpl; by rewrite lookup_insert_eq|].
  split; [by apply snapshot_NoDup|].
  intros info. rewrite !snapshot_spec by done.
  destruct (wf_tenant _ Hwf pk) as (Hinfo & _); [by eexists|].
  assert (at_key pk (mapPublicKeyToTerminalInfos st1) =
            <[terminal_id req := req]> (at_key pk (mapPublicKeyToTerminalInfos st))) as ->.
  { unfold st1. simpl. by rewrite at_key_alter_eq. }
  rewrite lookup_insert_Some. split.
  - intros [[_ <-]|[Hne Hin]]; [by left|]. right. split; [congruence|done].
  - intros [->|[Hne Hin]]; [by left|]. right. split; [congruence|done].
Qed.

Lemma upgrade_listTerminals req st st' effects :
  upgrade req st = inr (st', effects) →
  listTerminalsMessage st' = listTerminalsMessage st.
Proof.
  destruct (authenticated_maps (param (public_key req)) (param (signature req)) st)
    as (_ & _ & _ & _ & _ & Hc & _).
  intros Hup. apply upgrade_inr in Hup
    as [(r & _ & -> & _)|[(_ & _ & -> & _)|(_ & _ & e2 & Hup & _)]]; [done..|].
  by apply handleUpgrade_inr in Hup as (-> & _).
Qed.



(** The answer of [ListTerminals] is the snapshot taken by the latest
    tick of the interval: a tick under a key that has its host terminal
    replaces it by the metadata of that moment, and no other event
    changes it, whatever that event does to the metadata. *)
Theorem list_terminals_changes_on_tick_only (ev : event) (pk : string)
    (st st' : Hub) (effects : list effect) :
  step ev st = inr (st', effects) →
  (ev = Tick pk → is_Some (mapPublicKeyToTerminalIdToSocket st !! pk) →
   ListTerminals pk st' = Some (snapshot pk st)) ∧
  (ev = Tick pk → mapPublicKeyToTerminalIdToSocket st !! pk = None →
   ListTerminals pk st' = ListTerminals pk st) ∧
  (ev ≠ Tick pk → ListTerminals pk st' = ListTerminals pk st).
Proof.
  intros Hstep. unfold ListTerminals. destruct ev; simpl in Hstep;
    try (split; [done|split; [done|intros _]]).
  - apply upgrade_listTerminals in Hstep. by rewrite Hstep.
  - destruct (subscriptions st !! ws) as [[? ?]|]; [|by injection Hstep as <- _].
    destruct (forward _ _ _); [|done]. by injection Hstep as <- _.
  - destruct (subscriptions st !! ws) as [[? ?]|]; by injection Hstep as <- _.
  - destruct (_ !! _) in Hstep; by injection Hstep as <- _.
  - split; [|split].
    + intros [= ->] [m Hm]. rewrite Hm in Hstep. injection Hstep as <- _.
      simpl. by rewrite lookup_insert_eq.
    + intros [= ->] Hm. rewrite Hm in Hstep. by injection Hstep as <- _.
    + intros Hne. destruct (_ !! _) in Hstep; injection Hstep as <- _; [|done].
      simpl. rewrite lookup_insert_ne; [done|congruence].
  - injection Hstep as <- _. unfold repeat. destruct (pings st !! _); [|done].
    by case_decide.
  - by injection Hstep as <- _.
  - unfold ping_error in Hstep.
    destruct (_ !! _) in Hstep; [|by injection Hstep as <- _].
    destruct (_ <? _)%nat in Hstep; by injection Hstep as <- _.
Qed.

(** [ListHost] is provided by the host terminal of the admin key and by
    no other: under any other key, and before any connection has
    authenticated under the admin key, there is no such service. Once it
    is there, in a state the host can reach, it lists every public key
    that has authenticated, each once, with its recorded signature. *)
Theorem list_host_admin_only (st : Hub) (pk : string) :
  reachable st →
  (pk ≠ ADMIN_public_key → ListHost pk st = None) ∧
  (mapPublicKeyToTerminalIdToSocket st !! ADMIN_public_key = None →
   ListHost ADMIN_public_key st = None) ∧
  (is_Some (mapPublicKeyToTerminalIdToSocket st !! ADMIN_public_key) →
   ∃ l, ListHost ADMIN_public_key st = Some l ∧ NoDup l.*1 ∧
        (is_Some (mapPublicKeyToTerminalIdToSocket st !! pk) →
         ∃ sig, (pk, sig) ∈ l) ∧
        ∀ sig, (pk, sig) ∈ l ↔ mapPublicKeyToSignature st !! pk = Some sig).
Proof.
  intros Hreach. apply reachable_wf in Hreach as Hwf. unfold ListHost.
  split; [|split].
  - intros Hne. destruct (_ !! pk); [|done]. by rewrite bool_decide_eq_false_2.
  - by intros ->.
  - intros [m ->]. rewrite bool_decide_eq_true_2 by done.
    eexists. split; [done|]. split; [apply NoDup_fst_map_to_list|].
    split; [|intros sig; apply elem_of_map_to_list].
    intros Hpk. destruct (wf_tenant _ Hwf pk Hpk) as (_ & _ & [sig Hsig]).
    exists sig. by apply elem_of_map_to_list.
Qed.

(** ** Frames *)

(** The ['message'] subscription never changes the state of the host and
    sends a frame to at most one socket. When it returns, it has sent
    the data it received to socket [s] exactly when the frame parses to a
    value whose [target_terminal_id] is a key of the metadata of the
    sender's tenant and [s] is the socket registered under the property
    key of that target; otherwise it has sent nothing. *)
Theorem message_delivery (ws : WebSocket) (pk src data : string) (st st' : Hub)
    (effects : list effect) :
  subscriptions st !! ws = Some (pk, src) →
  step (Message ws data) st = inr (st', effects) →
  st' = st ∧
  (effects = [] ∨ ∃ s, effects = [WsSend s data]) ∧
  (∀ s, effects = [WsSend s data] ↔
     ∃ msg target k,
       JSON_parse data = Some msg ∧
       get_property "target_terminal_id" msg = inr target ∧
       key_of target = Some k ∧
       is_Some (at_key pk (mapPublicKeyToTerminalInfos st) !! k) ∧
       at_key pk (mapPublicKeyToTerminalIdToSocket st) !! property_key k = Some s).
Proof.
  intros Hws. simpl. rewrite Hws.
  destruct (forward pk data st) as [effs|] eqn:Hf; [|done]. intros [= <- <-].
  split; [done|]. split.
  - unfold forward in Hf. destruct (JSON_parse data); [|done].
    destruct (get_property _ _); [done|]. destruct (negb _); [injection Hf as <-; by left|].
    destruct (socket_of _ _) as [s| |]; [|done|]; injection Hf as <-; [right|left]; eauto.
  - intros s. split.
    + intros ->.
      destruct (forward_sends _ _ _ _ s data Hf) as (_ & _ & target & k & Hm & Hk & Hi & Hs);
        [set_solver|].
      destruct Hm as (msg & Hparse & Hget). by exists msg, target, k.
    + intros (msg & target & k & Hparse & Hget & Hk & Hi & Hs).
      unfold forward, has, socket_of, get in Hf.
      rewrite Hparse, Hget, Hk, Hs in Hf. rewrite bool_decide_eq_true_2 in Hf by done.
      by injection Hf as <-.
Qed.

(** Frames that parse but name no target. The frame [null] makes the
    handler throw a [TypeError]. A frame whose [target_terminal_id] is an
    array or an object is dropped with nothing sent, whatever the
    metadata holds. A JSON value that is no object, or an object without
    the property, reads [undefined] as its target, and is dropped as long
    as the metadata holds no entry under [undefined]. *)
Theorem frames_without_target (ws : WebSocket) (pk src data : string) (msg : json)
    (st : Hub) :
  subscriptions st !! ws = Some (pk, src) →
  JSON_parse data = Some msg →
  (msg = JNull → step (Message ws data) st = inl TypeError) ∧
  (∀ target, get_property "target_terminal_id" msg = inr target →
     key_of target = None → step (Message ws data) st = inr (st, [])) ∧
  (msg ≠ JNull →
   (∀ props, msg = JObject props → assoc "target_terminal_id" props = None) →
   get_property "target_terminal_id" msg = inr VUndefined ∧
   (at_key pk (mapPublicKeyToTerminalInfos st) !! KUndefined = None →
    step (Message ws data) st = inr (st, []))).
Proof.
  intros Hws Hparse. simpl. rewrite Hws. unfold forward, has. rewrite Hparse.
  split; [by intros ->|]. split.
  - intros target -> ->. done.
  - intros Hnull Hprops.
    assert (get_property "target_terminal_id" msg = inr VUndefined) as ->.
    { destruct msg as [| | | | |props]; try done. simpl.
      by rewrite (Hprops props eq_refl). }
    split; [done|]. simpl. intros ->. by rewrite bool_decide_eq_false_2 by (by intros [? ?]).
Qed.

(** The cleanup of a ['close'] event touches the terminal id of the
    closed socket only: it terminates the socket registered under that
    id, if any, and no other socket; the signatures, the subscriptions,
    the replayed snapshots, the probes, the other terminal ids of the
    tenant and the other tenants are as before. *)
Theorem close_cleanup_frame (ws : WebSocket) (pk tid : string) (st st' : Hub)
    (effects : list effect) :
  subscriptions st !! ws = Some (pk, tid) →
  step (Close ws) st = inr (st', effects) →
  effects =
    ConsoleInfo (TerminalDisconnected pk tid) ::
    match at_key pk (mapPublicKeyToTerminalIdToSocket st) !! tid with
    | Some s => [WsTerminate s]
    | None => []
    end ∧
  (mapPublicKeyToSignature st' = mapPublicKeyToSignature st ∧
   subscriptions st' = subscriptions st ∧
   next_socket st' = next_socket st ∧
   listTerminalsMessage st' = listTerminalsMessage st ∧
   pings st' = pings st) ∧
  (∀ pk' k, (pk', k) ≠ (pk, KString tid) →
     at_key pk' (mapPublicKeyToTerminalInfos st') !! k =
       at_key pk' (mapPublicKeyToTerminalInfos st) !! k) ∧
  (∀ pk' t, (pk', t) ≠ (pk, tid) →
     at_key pk' (mapPublicKeyToTerminalIdToSocket st') !! t =
       at_key pk' (mapPublicKeyToTerminalIdToSocket st) !! t).
Proof.
  intros Hws Hstep. simpl in Hstep. rewrite Hws in Hstep.
  apply inr_pair in Hstep as [-> ->]. split; [done|]. split; [done|].
  split.
  - intros pk' k Hne. simpl. destruct (decide (pk = pk')) as [<-|Hpk].
    + rewrite at_key_alter_delete, lookup_delete_ne by congruence. done.
    + by rewrite at_key_alter_ne.
  - intros pk' t Hne. simpl. destruct (decide (pk = pk')) as [<-|Hpk].
    + rewrite at_key_alter_delete, lookup_delete_ne by congruence. done.
    + by rewrite at_key_alter_ne.
Qed.

(** ** Sweeps *)

(** A sweep probes the terminal ids that have metadata at that moment,
    each with a fresh retry counter, and nothing else: a socket without
    metadata is not probed. It starts only when no probe of the previous
    sweep is in flight; otherwise, and for a key without pipeline, the
    event does nothing. A sweep by itself changes nothing of the
    registry and nothing of another tenant. *)
Theorem sweep_probes_listed_terminals (pk : string) (st st' : Hub)
    (effects : list effect) :
  step (Sweep pk) st = inr (st', effects) →
  effects = [] ∧ registry st' = registry st ∧
  (pings st !! pk = Some ∅ →
   ∀ t, at_key pk (pings st') !! t =
        (λ _, 0%nat) <$> at_key pk (mapPublicKeyToTerminalInfos st) !! t) ∧
  (pings st !! pk ≠ Some ∅ → st' = st) ∧
  (∀ pk', pk' ≠ pk → pings st' !! pk' = pings st !! pk').
Proof.
  simpl. intros [= <- <-]. unfold repeat. split; [done|].
  destruct (pings st !! pk) as [inflight|] eqn:E; [|done].
  destruct (decide (inflight = ∅)) as [->|Hne]; [|repeat split; congruence].
  repeat split.
  - intros _ t. unfold at_key at 1. simpl. rewrite lookup_insert_eq. simpl.
    by rewrite lookup_fmap.
  - done.
  - intros pk' Hpk. simpl. by rewrite lookup_insert_ne.
Qed.

(** In every state the host can reach, a probe in flight has used at most
    three retries, and it belongs to a key that has its host terminal. *)
Theorem retry_bound (st : Hub) (pk : string) (target : jskey) (soFar : nat) :
  reachable st →
  at_key pk (pings st) !! target = Some soFar →
  (soFar ≤ 3)%nat ∧ is_Some (mapPublicKeyToTerminalIdToSocket st !! pk).
Proof.
  intros Hreach Hin. split.
  - apply reachable_wf in Hreach. by apply (wf_counter _ Hreach pk target).
  - apply reachable_aligned in Hreach. destruct (Hreach pk) as (_ & _ & A3 & _).
    apply A3. by eapply at_key_lookup_Some.
Qed.

(** The first connection that authenticates under a public key finds the
    tenant empty: the host terminal is created with the signature of the
    request, the tenant has no metadata, the first sweep has nobody to
    probe, [ListTerminals] has no value to replay yet, and the connection
    map holds the new socket and nothing else, or nothing when the
    handshake does not complete. This is so when the handshake does not
    complete or the terminal id is no name of a member of
    [Object.prototype]; when the handshake completes with a terminal id
    that is such a name, the handler throws a [TypeError]. *)
Theorem first_connection_starts_empty (req : request) (st : Hub) :
  reachable st →
  missing (public_key req) = false →
  missing (req_terminal_id req) = false →
  missing (signature req) = false →
  verifyMessage "" (param (signature req)) (param (public_key req)) = true →
  mapPublicKeyToTerminalIdToSocket st !! param (public_key req) = None →
  let pk := param (public_key req) in
  let tid := param (req_terminal_id req) in
  (handshake req = false ∨ tid ∉ Object_prototype →
   ∃ st' effects,
     upgrade req st = inr (st', effects) ∧
     NewTerminal pk (param (signature req)) (bool_decide (pk = ADMIN_public_key))
       ∈ effects ∧
     mapPublicKeyToTerminalInfos st' !! pk = Some ∅ ∧
     pings st' !! pk = Some ∅ ∧
     ListTerminals pk st' = None ∧
     mapPublicKeyToTerminalIdToSocket st' !! pk =
       Some (if handshake req then {[tid := next_socket st]} else ∅)) ∧
  (handshake req = true → tid ∈ Object_prototype → upgrade req st = inl TypeError).
Proof.
  intros Hreach H1 H2 H3 H4 Hnew. cbv zeta.
  destruct (reachable_aligned _ Hreach (param (public_key req))) as (A1 & _ & _ & A4).
  assert (mapPublicKeyToTerminalInfos st !! param (public_key req) = None) as Hinfo.
  { apply eq_None_not_Some. intros Hi. apply A1 in Hi. rewrite Hnew in Hi.
    by destruct Hi. }
  assert (listTerminalsMessage st !! param (public_key req) = None) as Hlist.
  { apply eq_None_not_Some. intros Hi. apply A4 in Hi. rewrite Hnew in Hi.
    by destruct Hi. }
  unfold upgrade.
  assert (validateAuth req = inr tt) as -> by (by apply validateAuth_inr).
  split;
    [|intros ->  Hname; rewrite handleUpgrade_throws; [done|by apply reachable_wf|done]].
  destruct (authenticated_maps (param (public_key req)) (param (signature req)) st)
    as (Hs & Hi & _ & _ & Hn & Hc & Hp).
  rewrite Hnew in Hp.
  assert (at_key (param (public_key req)) (mapPublicKeyToTerminalInfos st) = ∅) as Hempty.
  { unfold at_key. by rewrite Hinfo. }
  rewrite Hempty, fmap_empty in Hp.
  assert (ensure (param (public_key req)) (mapPublicKeyToTerminalInfos st)
            !! param (public_key req) = Some ∅) as Hi'.
  { unfold ensure. rewrite Hinfo. apply lookup_insert_eq. }
  assert (ensure (param (public_key req)) (mapPublicKeyToTerminalIdToSocket st)
            !! param (public_key req) = Some ∅) as Hs'.
  { unfold ensure. rewrite Hnew. apply lookup_insert_eq. }
  intros Hcase. destruct (handshake req) eqn:Hhs.
  - destruct Hcase as [|Hname]; [done|].
    rewrite handleUpgrade_accepts by done.
    eexists _, _. split; [done|]. unfold ListTerminals, host_terminal.
    cbn [register mapPublicKeyToTerminalInfos pings listTerminalsMessage
         mapPublicKeyToTerminalIdToSocket].
    rewrite Hnew, Hi, Hp, Hc, Hi', Hlist, lookup_insert_eq.
    split; [set_solver|]. repeat split.
    rewrite lookup_alter_eq, Hs, Hs', Hn. simpl. by rewrite insert_empty.
  - eexists _, _. split; [done|]. unfold ListTerminals, host_terminal.
    rewrite Hnew, Hi, Hp, Hc, Hi', Hlist, lookup_insert_eq, Hs, Hs'.
    split; [set_solver|]. done.
Qed.

(** After the ['close'] event of any socket that was accepted under a
    terminal id, be it the socket registered under that id at that moment
    or one that was replaced, the id is not listed: the [ListTerminals]
    value of the next tick has no entry for it, and has the entries of
    the other terminal ids as they were. *)
Theorem close_then_list (ws : WebSocket) (pk tid : string) (st : Hub) :
  reachable st →
  subscriptions st !! ws = Some (pk, tid) →
  ∃ st' effects l,
    run [Close ws; Tick pk] st = inr (st', effects) ∧
    ListTerminals pk st' = Some l ∧
    (∀ info, info ∈ l → terminal_id info ≠ KString tid) ∧
    (∀ info, terminal_id info ≠ KString tid → info ∈ l ↔ info ∈ snapshot pk st).
Proof.
  intros Hreach Hws. apply reachable_wf in Hreach as Hwf.
  destruct (wf_subscribed _ Hwf _ _ _ Hws) as [m Hm].
  set (st1 := (evict pk (KString tid) st).1).
  assert (wf st1) as Hwf1 by (by apply wf_evict).
  assert (is_Some (mapPublicKeyToTerminalIdToSocket st1 !! pk)) as [m1 Hm1].
  { unfold st1. simpl. rewrite lookup_alter_is_Some. by eexists. }
  exists (tick pk st1), ((unregister pk tid st).2 ++ []), (snapshot pk st1).
  assert (at_key pk (mapPublicKeyToTerminalInfos st1) =
            delete (KString tid) (at_key pk (mapPublicKeyToTerminalInfos st))) as Hdel.
  { unfold st1. simpl. apply at_key_alter_delete. }
  split; [|split; [|split]].
  - cbn [run step]. rewrite Hws.
    rewrite (surjective_pairing (unregister pk tid st)).
    change (unregister pk tid st).1 with st1. by rewrite Hm1.
  - unfold ListTerminals. simpl. by rewrite lookup_insert_eq.
  - intros info Hin Heq. apply snapshot_spec in Hin; [|done].
    rewrite Hdel, Heq, lookup_delete_eq in Hin. done.
  - intros info Hne. rewrite !snapshot_spec by done.
    by rewrite Hdel, lookup_delete_ne.
Qed.

End Further.

(** * The record of a transfer routing cache *)

Lemma append_separator_inj (c : ascii) (a a' b b' : string) :
  occurs c a = false → occurs c a' = false →
  a +:+ String c b = a' +:+ String c b' → a = a' ∧ b = b'.
Proof.
  revert a'. induction a as [|x a IH]; intros [|y a']; simpl.
  - intros _ _ [= ->]. done.
  - intros _ Hy [= <- _]. by rewrite bool_decide_eq_true_2 in Hy.
  - intros Hx _ [= -> _]. by rewrite bool_decide_eq_true_2 in Hx.
  - intros Hx Hy [= -> Heq].
    apply orb_false_iff in Hx as [_ Hx]. apply orb_false_iff in Hy as [_ Hy].
    destruct (IH a' Hx Hy Heq) as [-> ->]. done.
Qed.

Lemma append_assoc (x y z : string) : (x +:+ y) +:+ z = x +:+ (y +:+ z).
Proof.
  induction x as [|c x IH]; [done|].
  change (String c ((x +:+ y) +:+ z) = String c (x +:+ (y +:+ z))). by rewrite IH.
Qed.

(** When the credit account ids hold no [-], the id that
    [wrapTransferRoutingCache] gives a record determines the pair of
    accounts: two caches with the same record id have the same credit
    account and the same debit account, and so the same tags. *)
Theorem routing_cache_id_determines_accounts (now1 now2 now1' now2' : Z)
    (o1 o2 : ITransferRoutingCache) :
  occurs "-" (credit_account_id o1) = false →
  occurs "-" (credit_account_id o2) = false →
  id (wrapTransferRoutingCache now1 now2 o1) =
    id (wrapTransferRoutingCache now1' now2' o2) →
  credit_account_id o1 = credit_account_id o2 ∧
  debit_account_id o1 = debit_account_id o2 ∧
  tags (wrapTransferRoutingCache now1 now2 o1) =
    tags (wrapTransferRoutingCache now1' now2' o2).
Proof.
  intros H1 H2 Hid. simpl in Hid.
  destruct (append_separator_inj _ _ _ _ _ H1 H2 Hid) as [Hc Hd].
  simpl. by rewrite Hc, Hd.
Qed.

(** Without that condition the id does not determine the accounts: the
    cache from [a-b] to [c] and the cache from [a] to [b-c] get the same
    record id, although their credit accounts and their tags differ. *)
Theorem routing_cache_id_collision (now1 now2 now1' now2' : Z) (a b c : string)
    (path1 path2 : list ITransferPair) :
  let o1 := {| credit_account_id := a +:+ "-" +:+ b; debit_account_id := c;
               routing_path := path1 |} in
  let o2 := {| credit_account_id := a; debit_account_id := b +:+ "-" +:+ c;
               routing_path := path2 |} in
  id (wrapTransferRoutingCache now1 now2 o1) =
    id (wrapTransferRoutingCache now1' now2' o2) ∧
  credit_account_id o1 ≠ credit_account_id o2 ∧
  tags (wrapTransferRoutingCache now1 now2 o1) ≠
    tags (wrapTransferRoutingCache now1' now2' o2).
Proof.
  cbv zeta. cbn [id wrapTransferRoutingCache credit_account_id debit_account_id tags].
  assert (a +:+ "-" +:+ b ≠ a) as Hne.
  { clear. induction a as [|x a IH]; simpl; [done|]. intros [= Heq]. by apply IH. }
  split; [rewrite append_assoc; reflexivity|]. split; [done|]. intros [= Heq _]. done.
Qed.

(** * The properties on concrete runs *)

#[local] Existing Instance example_platform.

Lemma state_after_reachable evs :
  example_run evs initial = inr (state_after evs, effects_after evs) →
  reachable (state_after evs).
Proof. intros Hrun. by eapply run_reachable; [apply reachable_initial|]. Qed.

(** C1 on the code. [t1] connects under [K] and reports its metadata; a
    second socket connects as [t1] under [K], which closes the first
    socket and registers the second. When the first socket then emits
    its ['close'] event, its cleanup removes the metadata of [t1],
    terminates the second socket and removes it from the connection map:
    [ListTerminals] has no entry for [t1] and no socket is registered for
    it. *)
Theorem replaced_socket_is_evicted_by_old_close :
  example_run t1_replaced initial = inr (state_after t1_replaced, effects_after t1_replaced) ∧
  WsClose 0 ∈ effects_after t1_replaced ∧
  WsTerminate 1 ∈ effects_after t1_replaced ∧
  at_key "K" (mapPublicKeyToTerminalIdToSocket (state_after t1_replaced)) !! "t1" = None ∧
  ListTerminals "K" (state_after t1_replaced) = Some [].
Proof. vm_compute. repeat split; set_solver. Qed.


Lemma forward_throws_on_invalid_json_witness :
  subscriptions (state_after t1_listed) !! 0 = Some ("K", "t1") ∧
  JSON_parse "not json" = None ∧
  step (Message 0 "not json") (state_after t1_listed) = inl SyntaxError.
Proof.
  assert (subscriptions (state_after t1_listed) !! 0 = Some ("K", "t1")) as Hws
    by reflexivity.
  assert (JSON_parse "not json" = None) as Hparse by reflexivity.
  split; [exact Hws|]. split; [exact Hparse|].
  exact (proj1 (proj2 (proj2
    (forward_throws_on_invalid_json 0 "K" "t1" "not json" _ Hws Hparse)))).
Defined.

(** C4 fails on the code as it is stated. A frame that is not JSON is
    neither dropped nor forwarded: the handler throws, and so it does on
    the frame [null]. A frame addressed
    to [t2], which has metadata under [K] but no socket, is not forwarded
    to anyone although its target is present in the metadata. A frame
    addressed to [constructor], which has metadata under [K] but no
    socket, is neither dropped nor forwarded: the connection map inherits
    a member of that name, which has no [send], and the handler throws. *)
Lemma forward_claim_counterexample :
  (subscriptions (state_after t1_listed) !! 0 = Some ("K", "t1") ∧
   step (Message 0 "not json") (state_after t1_listed) = inl SyntaxError ∧
   JSON_parse "null" = Some JNull ∧
   step (Message 0 "null") (state_after t1_listed) = inl TypeError) ∧
  (subscriptions (state_after t2_listed_only) !! 0 = Some ("K", "t1") ∧
   is_Some (at_key "K" (mapPublicKeyToTerminalInfos (state_after t2_listed_only))
              !! KString "t2") ∧
   step (Message 0 (frame_to "t2")) (state_after t2_listed_only) =
     inr (state_after t2_listed_only, [])) ∧
  (example_run constructor_listed initial =
     inr (state_after constructor_listed, effects_after constructor_listed) ∧
   subscriptions (state_after constructor_listed) !! 0 = Some ("K", "t1") ∧
   JSON_parse (frame_to "constructor") =
     Some (JObject [("target_terminal_id", JString "constructor")]) ∧
   is_Some (at_key "K" (mapPublicKeyToTerminalInfos (state_after constructor_listed))
              !! KString "constructor") ∧
   at_key "K" (mapPublicKeyToTerminalIdToSocket (state_after constructor_listed))
     !! "constructor" = None ∧
   step (Message 0 (frame_to "constructor")) (state_after constructor_listed) =
     inl TypeError).
Proof. vm_compute. repeat split; by eexists. Qed.

Lemma forward_parsed_witness :
  JSON_parse (frame_to "t2") = Some (JObject [("target_terminal_id", JString "t2")]) ∧
  get_property "target_terminal_id" (JObject [("target_terminal_id", JString "t2")]) =
    inr (VJson (JString "t2")) ∧
  forward "K" (frame_to "t2") (state_after two_tenants) =
    Returned [WsSend 1 (frame_to "t2")].
Proof.
  assert (JSON_parse (frame_to "t2") =
            Some (JObject [("target_terminal_id", JString "t2")])) as Hparse
    by reflexivity.
  assert (get_property "target_terminal_id"
            (JObject [("target_terminal_id", JString "t2")]) =
            inr (VJson (JString "t2"))) as Hget by reflexivity.
  split; [exact Hparse|]. split; [exact Hget|].
  apply (proj1 (proj2
    (forward_parsed "K" _ _ _ (state_after two_tenants) Hparse Hget)) (KString "t2") 1).
  - reflexivity.
  - vm_compute. by eexists.
  - reflexivity.
Defined.

Lemma unregister_idempotent_witness :
  subscriptions (state_after t1_listed) !! 0 = Some ("K", "t1") ∧
  run [Close 0; Close 0] (state_after t1_listed) =
    inr ((unregister "K" "t1" (state_after t1_listed)).1,
         (unregister "K" "t1" (state_after t1_listed)).2 ++
         [ConsoleInfo (TerminalDisconnected "K" "t1")]).
Proof.
  assert (subscriptions (state_after t1_listed) !! 0 = Some ("K", "t1")) as Hws
    by reflexivity.
  split; [exact Hws|].
  exact (proj2 (proj2 (proj2
    (unregister_idempotent "K" "t1" (state_after t1_listed)))) 0 Hws).
Defined.

(** C3 fails on the code as it is stated. [t1] is connected and listed
    under [K], and a sweep probes it. After three failed attempts of the
    probe nothing has been evicted: the socket of [t1] is registered, no
    socket has been terminated, and the [ListTerminals] value of the next
    tick still lists [t1]. A reply to the fourth attempt then ends the
    probe with [t1] registered. *)
Lemma three_failures_counterexample :
  example_run (t1_probed ++ failures 3 "K" (KString "t1") ++ [Tick "K"]) initial =
    inr (state_after (t1_probed ++ failures 3 "K" (KString "t1") ++ [Tick "K"]),
         effects_after (t1_probed ++ failures 3 "K" (KString "t1") ++ [Tick "K"])) ∧
  ListTerminals "K" (state_after (t1_probed ++ failures 3 "K" (KString "t1") ++ [Tick "K"])) =
    Some [example_info "t1"] ∧
  at_key "K" (mapPublicKeyToTerminalIdToSocket
                (state_after (t1_probed ++ failures 3 "K" (KString "t1") ++ [Tick "K"]))) !! "t1" =
    Some 0 ∧
  (WsTerminate 0 ∉ effects_after (t1_probed ++ failures 3 "K" (KString "t1") ++ [Tick "K"])) ∧
  ListTerminals "K"
    (state_after (t1_probed ++ failures 3 "K" (KString "t1") ++ [PingOk "K" (KString "t1"); Tick "K"])) =
    Some [example_info "t1"].
Proof. vm_compute. repeat split. set_solver. Qed.

Lemma probe_evicts_on_fourth_failure_witness :
  reachable (state_after t1_probed) ∧
  is_Some (mapPublicKeyToTerminalIdToSocket (state_after t1_probed) !! "K") ∧
  at_key "K" (pings (state_after t1_probed)) !! KString "t1" = Some 0 ∧
  ∃ st' effects,
    run (failures 4 "K" (KString "t1") ++ [Tick "K"]) (state_after t1_probed) = inr (st', effects) ∧
    at_key "K" (mapPublicKeyToTerminalInfos st') !! KString "t1" = None ∧
    at_key "K" (mapPublicKeyToTerminalIdToSocket st') !! "t1" = None ∧
    (∀ s, at_key "K" (mapPublicKeyToTerminalIdToSocket (state_after t1_probed)) !! "t1" =
            Some s → WsTerminate s ∈ effects) ∧
    ListTerminals "K" st' = Some (snapshot "K" st') ∧
    (∀ info, info ∈ snapshot "K" st' → terminal_id info ≠ KString "t1").
Proof.
  assert (reachable (state_after t1_probed)) as Hreach
    by (apply state_after_reachable; vm_compute; reflexivity).
  assert (is_Some (mapPublicKeyToTerminalIdToSocket (state_after t1_probed) !! "K"))
    as Hhost by (vm_compute; eexists; reflexivity).
  assert (at_key "K" (pings (state_after t1_probed)) !! KString "t1" = Some 0) as Hzero
    by reflexivity.
  split; [exact Hreach|]. split; [exact Hhost|]. split; [exact Hzero|].
  exact (proj1 (proj2 (proj2
    (probe_evicts_on_fourth_failure "K" (KString "t1") _ Hreach Hhost Hzero)))).
Defined.


(** C9 fails on the code as it is stated. A terminal connects under [K]
    with the id ["5"] and never reports metadata; another terminal
    reports metadata whose [terminal_id] is the number [5]. The metadata
    of [K] has no entry for the id ["5"], which is a string. A frame with
    the target [5] passes the test of [terminalInfos.has], which finds
    the number, and is sent to the socket of ["5"], which the connection
    map finds under the property key of the number. *)
Lemma number_key_counterexample :
  example_run number_listed initial =
    inr (state_after number_listed, effects_after number_listed) ∧
  subscriptions (state_after number_listed) !! 0 = Some ("K", "t1") ∧
  at_key "K" (mapPublicKeyToTerminalIdToSocket (state_after number_listed)) !! "5" =
    Some 1 ∧
  at_key "K" (mapPublicKeyToTerminalInfos (state_after number_listed)) !! KString "5" =
    None ∧
  has (at_key "K" (mapPublicKeyToTerminalInfos (state_after number_listed)))
      (VJson (JString "5")) = false ∧
  JSON_parse (frame_to_number "5") =
    Some (JObject [("target_terminal_id", JNumber "5")]) ∧
  step (Message 0 (frame_to_number "5")) (state_after number_listed) =
    inr (state_after number_listed, [WsSend 1 (frame_to_number "5")]).
Proof. vm_compute. repeat split. Qed.

Lemma unlisted_socket_receives_nothing_witness :
  reachable (state_after two_tenants) ∧
  at_key "K" (mapPublicKeyToTerminalIdToSocket (state_after two_tenants)) !! "t1" = Some 0 ∧
  (∀ k, is_Some (at_key "K" (mapPublicKeyToTerminalInfos (state_after two_tenants)) !! k) →
        property_key k ≠ "t1") ∧
  ∀ ev st' effects data,
    step ev (state_after two_tenants) = inr (st', effects) → WsSend 0 data ∉ effects.
Proof.
  assert (reachable (state_after two_tenants)) as Hreach
    by (apply state_after_reachable; vm_compute; reflexivity).
  assert (at_key "K" (mapPublicKeyToTerminalInfos (state_after two_tenants)) =
            {[KString "t2" := example_info "t2"]}) as Hinfos by reflexivity.
  assert (∀ k, is_Some (at_key "K" (mapPublicKeyToTerminalInfos (state_after two_tenants))
                          !! k) → property_key k ≠ "t1") as Hkeys.
  { intros k [info Hk]. rewrite Hinfos in Hk.
    apply lookup_singleton_Some in Hk as [<- _]. discriminate. }
  split; [exact Hreach|]. split; [reflexivity|]. split; [exact Hkeys|].
  apply (unlisted_socket_receives_nothing _ "K" "t1" 0 Hreach); [reflexivity|exact Hkeys].
Defined.

Lemma tenants_isolated_witness :
  reachable (state_after two_tenants) ∧ "K" ≠ "L" ∧
  step (Message 0 (frame_to "t9")) (state_after two_tenants) =
    inr (state_after two_tenants, []).
Proof.
  assert (reachable (state_after two_tenants)) as Hreach
    by (apply state_after_reachable; vm_compute; reflexivity).
  assert ("K" ≠ "L") as Hne by discriminate.
  split; [exact Hreach|]. split; [exact Hne|].
  apply (proj1 (proj2 (tenants_isolated _ "K" "L" Hreach Hne)) 0 "t1" _
           (JObject [("target_terminal_id", JString "t9")]) (VJson (JString "t9"))
           (KString "t9")).
  - reflexivity.
  - reflexivity.
  - reflexivity.
  - reflexivity.
  - left. reflexivity.
Defined.

(** C6 fails on the code as it is stated. Two connections authenticate
    under the admin key, the first with one valid signature and the
    second with another: [ListHost] lists the signature of the second,
    not the one of the first. *)
Lemma first_signature_counterexample :
  example_run two_signatures initial =
    inr (state_after two_signatures, effects_after two_signatures) ∧
  first_authenticated "admin" two_signatures = Some "sig:admin" ∧
  ListHost "admin" (state_after two_signatures) = Some [("admin", "SIG:admin")] ∧
  mapPublicKeyToSignature (state_after two_signatures) !! "admin" ≠ Some "sig:admin".
Proof. vm_compute. repeat split. discriminate. Qed.

Lemma signature_of_record_is_latest_witness :
  run two_signatures initial =
    inr (state_after two_signatures, effects_after two_signatures) ∧
  mapPublicKeyToSignature (state_after two_signatures) !! "admin" = Some "SIG:admin".
Proof.
  assert (run two_signatures initial =
            inr (state_after two_signatures, effects_after two_signatures)) as Hrun
    by (vm_compute; reflexivity).
  split; [exact Hrun|].
  exact (proj1 (signature_of_record_is_latest "admin" _ _ _ _ Hrun)).
Defined.

(** ** The further properties on concrete runs *)

Lemma upgrade_accepts_witness :
  (missing (Some "K") = false ∧ missing (Some "t1") = false ∧
   missing (Some "sig:K") = false ∧ verifyMessage "" "sig:K" "K" = true) ∧
  (("t1" ∉ Object_prototype) ∧
   ∃ st' effects,
     upgrade (example_request "K" "t1" "sig:K") (state_after t1_listed) =
       inr (st', effects) ∧
     at_key "K" (mapPublicKeyToTerminalIdToSocket st') !! "t1" = Some 1 ∧
     (∀ s, WsClose s ∈ effects ↔
           at_key "K" (mapPublicKeyToTerminalIdToSocket (state_after t1_listed)) !! "t1" =
             Some s)) ∧
  (reachable (state_after t1_listed) ∧ "constructor" ∈ Object_prototype ∧
   upgrade (example_request "K" "constructor" "sig:K") (state_after t1_listed) =
     inl TypeError).
Proof.
  assert ("t1" ∉ Object_prototype) as Hname
    by (apply (bool_decide_unpack _); vm_compute; exact I).
  assert ("constructor" ∈ Object_prototype) as Hproto
    by (apply (bool_decide_unpack _); vm_compute; exact I).
  assert (reachable (state_after t1_listed)) as Hreach
    by (apply state_after_reachable; vm_compute; reflexivity).
  split; [repeat split|]. split.
  - split; [exact Hname|].
    pose proof (upgrade_accepts (example_request "K" "t1" "sig:K")
                  (state_after t1_listed) eq_refl eq_refl eq_refl eq_refl eq_refl) as H.
    destruct (proj1 H Hname) as (st' & effects & Hup & Hreg & _ & _ & _ & Hclose & _).
    exists st', effects. split; [exact Hup|]. split; [exact Hreg|exact Hclose].
  - split; [exact Hreach|]. split; [exact Hproto|].
    pose proof (upgrade_accepts (example_request "K" "constructor" "sig:K")
                  (state_after t1_listed) eq_refl eq_refl eq_refl eq_refl eq_refl) as H.
    exact (proj2 H Hreach Hproto).
Defined.

Lemma first_connection_starts_empty_witness :
  reachable initial ∧
  mapPublicKeyToTerminalIdToSocket initial !! "K" = None ∧
  (("t1" ∉ Object_prototype) ∧
   ∃ st' effects,
     upgrade (example_request "K" "t1" "sig:K") initial = inr (st', effects) ∧
     NewTerminal "K" "sig:K" false ∈ effects ∧
     pings st' !! "K" = Some ∅ ∧
     ListTerminals "K" st' = None ∧
     mapPublicKeyToTerminalIdToSocket st' !! "K" = Some {["t1" := 0]}) ∧
  ("constructor" ∈ Object_prototype ∧
   upgrade (example_request "K" "constructor" "sig:K") initial = inl TypeError).
Proof.
  assert ("t1" ∉ Object_prototype) as Hname
    by (apply (bool_decide_unpack _); vm_compute; exact I).
  assert ("constructor" ∈ Object_prototype) as Hproto
    by (apply (bool_decide_unpack _); vm_compute; exact I).
  split; [apply reachable_initial|]. split; [reflexivity|]. split.
  - split; [exact Hname|].
    pose proof (first_connection_starts_empty (example_request "K" "t1" "sig:K")
                  initial reachable_initial eq_refl eq_refl eq_refl eq_refl eq_refl) as H.
    destruct (proj1 H (or_intror Hname))
      as (st' & effects & Hup & Hnew & _ & Hp & Hl & Hs).
    exists st', effects. split; [exact Hup|]. split; [exact Hnew|].
    split; [exact Hp|]. split; [exact Hl|exact Hs].
  - split; [exact Hproto|].
    pose proof (first_connection_starts_empty
                  (example_request "K" "constructor" "sig:K") initial
                  reachable_initial eq_refl eq_refl eq_refl eq_refl eq_refl) as H.
    exact (proj2 H eq_refl Hproto).
Defined.

Lemma host_created_once_witness :
  run two_signatures initial =
    inr (state_after two_signatures, effects_after two_signatures) ∧
  hosts_created "admin" (effects_after two_signatures) = 1%nat ∧
  ∀ sig admin, NewTerminal "admin" sig admin ∈ effects_after two_signatures →
    mapPublicKeyToTerminalIdToSocket initial !! "admin" = None ∧
    first_authenticated "admin" two_signatures = Some sig ∧
    admin = bool_decide ("admin" = ADMIN_public_key).
Proof.
  assert (run two_signatures initial =
            inr (state_after two_signatures, effects_after two_signatures)) as Hrun
    by (vm_compute; reflexivity).
  split; [exact Hrun|].
  exact (host_created_once "admin" _ _ _ _ Hrun).
Defined.

Lemma tenants_created_by_authentication_witness :
  run two_tenants initial = inr (state_after two_tenants, effects_after two_tenants) ∧
  (is_Some (mapPublicKeyToTerminalIdToSocket (state_after two_tenants) !! "L") ↔
   is_Some (mapPublicKeyToTerminalIdToSocket initial !! "L") ∨
   is_Some (first_authenticated "L" two_tenants)).
Proof.
  assert (run two_tenants initial =
            inr (state_after two_tenants, effects_after two_tenants)) as Hrun
    by (vm_compute; reflexivity).
  split; [exact Hrun|].
  exact (proj1 (tenants_created_by_authentication "L" _ _ _ _ Hrun)).
Defined.

Lemma tenant_maps_exist_together_witness :
  reachable (state_after two_tenants) ∧
  (is_Some (mapPublicKeyToTerminalIdToSocket (state_after two_tenants) !! "L") ↔
   is_Some (mapPublicKeyToTerminalInfos (state_after two_tenants) !! "L")).
Proof.
  assert (reachable (state_after two_tenants)) as Hreach
    by (apply state_after_reachable; vm_compute; reflexivity).
  split; [exact Hreach|].
  exact (proj1 (tenant_maps_exist_together _ "L" Hreach)).
Defined.

Lemma registry_injective_witness :
  reachable (state_after two_tenants) ∧
  at_key "K" (mapPublicKeyToTerminalIdToSocket (state_after two_tenants)) !! "t2" = Some 1 ∧
  (1 < next_socket (state_after two_tenants))%nat ∧
  subscriptions (state_after two_tenants) !! 1 = Some ("K", "t2").
Proof.
  assert (reachable (state_after two_tenants)) as Hreach
    by (apply state_after_reachable; vm_compute; reflexivity).
  assert (at_key "K" (mapPublicKeyToTerminalIdToSocket (state_after two_tenants)) !! "t2" =
            Some 1) as Hs by reflexivity.
  split; [exact Hreach|]. split; [exact Hs|].
  exact (proj2 (proj2 (registry_injective _ "K" "K" "t2" "t2" 1 Hreach Hs Hs))).
Defined.

Lemma update_then_list_witness :
  reachable (state_after t1_listed) ∧
  is_Some (mapPublicKeyToTerminalIdToSocket (state_after t1_listed) !! "K") ∧
  ∃ st' l,
    run [CallUpdateTerminalInfo "K" (example_info "t2"); Tick "K"] (state_after t1_listed) =
      inr (st', [TerminalInfoNext "K" (example_info "t2")]) ∧
    ListTerminals "K" st' = Some l ∧
    NoDup (terminal_id <$> l) ∧
    ∀ info, info ∈ l ↔
      info = example_info "t2" ∨
      (terminal_id info ≠ terminal_id (example_info "t2") ∧
       info ∈ snapshot "K" (state_after t1_listed)).
Proof.
  assert (reachable (state_after t1_listed)) as Hreach
    by (apply state_after_reachable; vm_compute; reflexivity).
  assert (is_Some (mapPublicKeyToTerminalIdToSocket (state_after t1_listed) !! "K"))
    as Hhost by (vm_compute; eexists; reflexivity).
  split; [exact Hreach|]. split; [exact Hhost|].
  exact (update_then_list "K" (example_info "t2") _ Hreach Hhost).
Defined.


Lemma list_terminals_changes_on_tick_only_witness :
  step (Close 0) (state_after (t1_listed ++ [Tick "K"])) =
    inr ((unregister "K" "t1" (state_after (t1_listed ++ [Tick "K"]))).1,
         [ConsoleInfo (TerminalDisconnected "K" "t1"); WsTerminate 0]) ∧
  ListTerminals "K" (unregister "K" "t1" (state_after (t1_listed ++ [Tick "K"]))).1 =
    ListTerminals "K" (state_after (t1_listed ++ [Tick "K"])).
Proof.
  assert (step (Close 0) (state_after (t1_listed ++ [Tick "K"])) =
            inr ((unregister "K" "t1" (state_after (t1_listed ++ [Tick "K"]))).1,
                 [ConsoleInfo (TerminalDisconnected "K" "t1"); WsTerminate 0])) as Hstep
    by (vm_compute; reflexivity).
  split; [exact Hstep|].
  apply (proj2 (proj2 (list_terminals_changes_on_tick_only _ "K" _ _ _ Hstep))).
  discriminate.
Defined.

Lemma list_host_admin_only_witness :
  reachable (state_after admin_and_tenant) ∧
  ("K" ≠ ADMIN_public_key ∧
   is_Some (mapPublicKeyToTerminalIdToSocket (state_after admin_and_tenant) !! "K") ∧
   ListHost "K" (state_after admin_and_tenant) = None) ∧
  (is_Some (mapPublicKeyToTerminalIdToSocket (state_after admin_and_tenant)
              !! ADMIN_public_key) ∧
   ∃ l, ListHost ADMIN_public_key (state_after admin_and_tenant) = Some l ∧
        NoDup l.*1 ∧ ("K", "sig:K") ∈ l ∧ ("K", "SIG:K") ∉ l) ∧
  (mapPublicKeyToTerminalIdToSocket (state_after t1_listed) !! ADMIN_public_key = None ∧
   ListHost ADMIN_public_key (state_after t1_listed) = None).
Proof.
  assert (reachable (state_after admin_and_tenant)) as Hreach
    by (apply state_after_reachable; vm_compute; reflexivity).
  assert (reachable (state_after t1_listed)) as Hreach'
    by (apply state_after_reachable; vm_compute; reflexivity).
  assert ("K" ≠ ADMIN_public_key) as Hne by discriminate.
  assert (is_Some (mapPublicKeyToTerminalIdToSocket (state_after admin_and_tenant) !! "K"))
    as Htenant by (vm_compute; eexists; reflexivity).
  assert (is_Some (mapPublicKeyToTerminalIdToSocket (state_after admin_and_tenant)
                     !! ADMIN_public_key))
    as Hadmin by (vm_compute; eexists; reflexivity).
  assert (mapPublicKeyToTerminalIdToSocket (state_after t1_listed) !! ADMIN_public_key =
            None) as Hnone by reflexivity.
  destruct (list_host_admin_only (state_after admin_and_tenant) "K" Hreach)
    as (Hother & _ & Hlist).
  destruct (list_host_admin_only (state_after t1_listed) "K" Hreach')
    as (_ & Hbefore & _).
  split; [exact Hreach|]. split; [|split].
  - split; [exact Hne|]. split; [exact Htenant|exact (Hother Hne)].
  - split; [exact Hadmin|]. destruct (Hlist Hadmin) as (l & Hl & Hnodup & _ & Hsig).
    exists l. split; [exact Hl|]. split; [exact Hnodup|]. split.
    + apply Hsig. reflexivity.
    + intros Hin. apply Hsig in Hin. discriminate Hin.
  - split; [exact Hnone|exact (Hbefore Hnone)].
Defined.

Lemma message_delivery_witness :
  subscriptions (state_after two_tenants) !! 0 = Some ("K", "t1") ∧
  (step (Message 0 (frame_to "t2")) (state_after two_tenants) =
     inr (state_after two_tenants, [WsSend 1 (frame_to "t2")]) ∧
   ∃ msg target k,
     JSON_parse (frame_to "t2") = Some msg ∧
     get_property "target_terminal_id" msg = inr target ∧
     key_of target = Some k ∧
     is_Some (at_key "K" (mapPublicKeyToTerminalInfos (state_after two_tenants)) !! k) ∧
     at_key "K" (mapPublicKeyToTerminalIdToSocket (state_after two_tenants))
       !! property_key k = Some 1) ∧
  (step (Message 0 (frame_to "t1")) (state_after two_tenants) =
     inr (state_after two_tenants, []) ∧
   ∀ s, ¬ ∃ msg target k,
     JSON_parse (frame_to "t1") = Some msg ∧
     get_property "target_terminal_id" msg = inr target ∧
     key_of target = Some k ∧
     is_Some (at_key "K" (mapPublicKeyToTerminalInfos (state_after two_tenants)) !! k) ∧
     at_key "K" (mapPublicKeyToTerminalIdToSocket (state_after two_tenants))
       !! property_key k = Some s).
Proof.
  assert (subscriptions (state_after two_tenants) !! 0 = Some ("K", "t1")) as Hws
    by reflexivity.
  assert (step (Message 0 (frame_to "t2")) (state_after two_tenants) =
            inr (state_after two_tenants, [WsSend 1 (frame_to "t2")])) as Hsent
    by (vm_compute; reflexivity).
  assert (step (Message 0 (frame_to "t1")) (state_after two_tenants) =
            inr (state_after two_tenants, [])) as Hdropped
    by (vm_compute; reflexivity).
  split; [exact Hws|]. split.
  - split; [exact Hsent|].
    destruct (message_delivery 0 "K" "t1" _ _ _ _ Hws Hsent) as (_ & _ & Hiff).
    exact (proj1 (Hiff 1) eq_refl).
  - split; [exact Hdropped|].
    destruct (message_delivery 0 "K" "t1" _ _ _ _ Hws Hdropped) as (_ & _ & Hiff).
    intros s Hex. apply Hiff in Hex. discriminate Hex.
Defined.

Lemma frames_without_target_witness :
  subscriptions (state_after t1_listed) !! 0 = Some ("K", "t1") ∧
  (JSON_parse "null" = Some JNull ∧
   step (Message 0 "null") (state_after t1_listed) = inl TypeError) ∧
  (JSON_parse "{}" = Some (JObject []) ∧
   at_key "K" (mapPublicKeyToTerminalInfos (state_after t1_listed)) !! KUndefined = None ∧
   step (Message 0 "{}") (state_after t1_listed) = inr (state_after t1_listed, [])).
Proof.
  assert (subscriptions (state_after t1_listed) !! 0 = Some ("K", "t1")) as Hws
    by reflexivity.
  assert (JSON_parse "null" = Some JNull) as Hnull by reflexivity.
  assert (JSON_parse "{}" = Some (JObject [])) as Hempty by reflexivity.
  assert (at_key "K" (mapPublicKeyToTerminalInfos (state_after t1_listed)) !! KUndefined =
            None) as Hundefined by reflexivity.
  split; [exact Hws|]. split.
  - split; [exact Hnull|].
    exact (proj1 (frames_without_target 0 "K" "t1" "null" JNull _ Hws Hnull) eq_refl).
  - split; [exact Hempty|]. split; [exact Hundefined|].
    destruct (frames_without_target 0 "K" "t1" "{}" (JObject []) _ Hws Hempty)
      as (_ & _ & Hobject).
    apply Hobject; [discriminate| |exact Hundefined].
    intros props Hprops. injection Hprops as <-. reflexivity.
Defined.

Lemma close_cleanup_frame_witness :
  subscriptions (state_after two_tenants) !! 1 = Some ("K", "t2") ∧
  step (Close 1) (state_after two_tenants) =
    inr ((unregister "K" "t2" (state_after two_tenants)).1,
         [ConsoleInfo (TerminalDisconnected "K" "t2"); WsTerminate 1]) ∧
  at_key "K" (mapPublicKeyToTerminalIdToSocket
                (unregister "K" "t2" (state_after two_tenants)).1) !! "t1" =
    at_key "K" (mapPublicKeyToTerminalIdToSocket (state_after two_tenants)) !! "t1".
Proof.
  assert (subscriptions (state_after two_tenants) !! 1 = Some ("K", "t2")) as Hws
    by reflexivity.
  assert (step (Close 1) (state_after two_tenants) =
            inr ((unregister "K" "t2" (state_after two_tenants)).1,
                 [ConsoleInfo (TerminalDisconnected "K" "t2"); WsTerminate 1])) as Hstep
    by (vm_compute; reflexivity).
  split; [exact Hws|]. split; [exact Hstep|].
  apply (proj2 (proj2 (proj2 (close_cleanup_frame 1 "K" "t2" _ _ _ Hws Hstep))) "K" "t1").
  discriminate.
Defined.

Lemma sweep_probes_listed_terminals_witness :
  step (Sweep "K") (state_after two_tenants) =
    inr (repeat "K" (state_after two_tenants), []) ∧
  pings (state_after two_tenants) !! "K" = Some ∅ ∧
  at_key "K" (pings (repeat "K" (state_after two_tenants))) !! KString "t2" = Some 0%nat ∧
  at_key "K" (pings (repeat "K" (state_after two_tenants))) !! KString "t1" = None.
Proof.
  assert (step (Sweep "K") (state_after two_tenants) =
            inr (repeat "K" (state_after two_tenants), [])) as Hstep by reflexivity.
  assert (pings (state_after two_tenants) !! "K" = Some ∅) as Hidle by reflexivity.
  split; [exact Hstep|]. split; [exact Hidle|].
  destruct (sweep_probes_listed_terminals "K" _ _ _ Hstep) as (_ & _ & Hprobes & _).
  split; [exact (Hprobes Hidle (KString "t2"))|exact (Hprobes Hidle (KString "t1"))].
Defined.

Lemma retry_bound_witness :
  reachable (state_after (t1_probed ++ failures 2 "K" (KString "t1"))) ∧
  at_key "K" (pings (state_after (t1_probed ++ failures 2 "K" (KString "t1")))) !! KString "t1" = Some 2%nat ∧
  (2 ≤ 3)%nat.
Proof.
  assert (reachable (state_after (t1_probed ++ failures 2 "K" (KString "t1")))) as Hreach
    by (apply state_after_reachable; vm_compute; reflexivity).
  assert (at_key "K" (pings (state_after (t1_probed ++ failures 2 "K" (KString "t1")))) !! KString "t1" =
            Some 2%nat) as Hin by reflexivity.
  split; [exact Hreach|]. split; [exact Hin|].
  exact (proj1 (retry_bound _ "K" (KString "t1") 2 Hreach Hin)).
Defined.

Lemma close_then_list_witness :
  reachable (state_after t1_listed) ∧
  subscriptions (state_after t1_listed) !! 0 = Some ("K", "t1") ∧
  ∃ st' effects l,
    run [Close 0; Tick "K"] (state_after t1_listed) = inr (st', effects) ∧
    ListTerminals "K" st' = Some l ∧
    (∀ info, info ∈ l → terminal_id info ≠ KString "t1") ∧
    (∀ info, terminal_id info ≠ KString "t1" →
       info ∈ l ↔ info ∈ snapshot "K" (state_after t1_listed)).
Proof.
  assert (reachable (state_after t1_listed)) as Hreach
    by (apply state_after_reachable; vm_compute; reflexivity).
  assert (subscriptions (state_after t1_listed) !! 0 = Some ("K", "t1")) as Hws
    by reflexivity.
  split; [exact Hreach|]. split; [exact Hws|].
  exact (close_then_list 0 "K" "t1" _ Hreach Hws).
Defined.

Lemma routing_cache_id_determines_accounts_witness :
  occurs "-" "acct1" = false ∧
  id (wrapTransferRoutingCache 10 11
        {| credit_account_id := "acct1"; debit_account_id := "acct-2";
           routing_path := [] |}) = "acct1-acct-2" ∧
  tags (wrapTransferRoutingCache 10 11
          {| credit_account_id := "acct1"; debit_account_id := "acct-2";
             routing_path := [] |}) =
    tags (wrapTransferRoutingCache 20 21
            {| credit_account_id := "acct1"; debit_account_id := "acct-2";
               routing_path :=
                 [{| tx_account_id := Some "acct1"; rx_account_id := Some "acct-2";
                     tx_address := None; rx_address := None; network_id := None |}] |}).
Proof.
  split; [reflexivity|]. split; [reflexivity|].
  exact (proj2 (proj2 (routing_cache_id_determines_accounts 10 11 20 21
    {| credit_account_id := "acct1"; debit_account_id := "acct-2"; routing_path := [] |}
    {| credit_account_id := "acct1"; debit_account_id := "acct-2";
       routing_path :=
         [{| tx_account_id := Some "acct1"; rx_account_id := Some "acct-2";
             tx_address := None; rx_address := None; network_id := None |}] |}
    eq_refl eq_refl eq_refl))).
Defined.
